(** * Variational optimisation loops of the PennyLane tutorial notebooks

    The notebooks of the repository fit the parameters of a small quantum
    circuit to a scalar objective with a fixed-iteration loop

      - [vqe_with_two_qubits.ipynb]: [qml.GradientDescentOptimizer] driven by
        [for i in range(steps): params, cost = opt.step_and_cost(cost_fn, params)];
      - [quantum_circuit_state_learning_jax.ipynb]: [train_step] (optax) driven
        by [for i in range(num_steps)], with the objective [loss_fn].

    This file embeds those loops, the objective [loss_fn] and the update rule
    they rely on, and states the properties of the optimisation driver over
    them.  Scalars are kept abstract behind the class [Scalar].  The
    notebooks compute in IEEE 754 arithmetic: binary64 for Python and numpy
    floats (the instance on primitive floats), binary32 for JAX arrays (the
    instance on [spec_float], for any precision and exponent range).  The
    instance on [R] is exact arithmetic; it serves where every number that
    occurs is 0, 1, -1, i or -i, and for the idealised analysis of the
    descent. *)

From Stdlib Require Import List Arith PeanoNat Lia Bool ZArith.
From Stdlib Require Import Reals Lra Psatz.
From Stdlib Require Import PrimFloat SpecFloat.
Import ListNotations.

Set Implicit Arguments.
Set Warnings "-inexact-float".

(* ================================================================== *)
(** * Part I: definitions *)
(* ================================================================== *)

(** ** Scalars

    The arithmetic the notebooks use on parameters and costs.  Nothing is
    assumed of the operations: on floats they round, overflow and propagate
    NaN as IEEE 754 says. *)

Class Scalar (T : Type) : Type := {
  szero : T;
  sone  : T;
  sadd  : T -> T -> T;
  ssub  : T -> T -> T;
  smul  : T -> T -> T;
  sopp  : T -> T
}.

(** Python floats: IEEE 754 binary64. *)
#[export]
Instance float_scalar : Scalar float := {|
  szero := 0%float;
  sone  := 1%float;
  sadd  := PrimFloat.add;
  ssub  := PrimFloat.sub;
  smul  := PrimFloat.mul;
  sopp  := PrimFloat.opp
|}.

(** IEEE 754 binary floating point with [prec] bits of precision and
    exponents below [emax], as the Standard Library specifies it: binary64
    is [ieee_scalar 53 1024], and binary32, in which JAX holds its arrays
    unless told otherwise, is [ieee_scalar 24 128]. *)
Definition ieee_scalar (prec emax : Z) : Scalar spec_float := {|
  szero := S754_zero false;
  sone  := SFone prec emax;
  sadd  := SFadd prec emax;
  ssub  := SFsub prec emax;
  smul  := SFmul prec emax;
  sopp  := SFopp
|}.

Definition binary32 : Scalar spec_float := ieee_scalar 24 128.

(** Exact real arithmetic.  No notebook computes in it: it is used where
    the arrays hold only 0, 1, -1, i and -i, on which binary64 arithmetic is
    exact too, and for the idealised analysis of the descent. *)
#[export]
Instance R_scalar : Scalar R := {|
  szero := 0%R;
  sone  := 1%R;
  sadd  := Rplus;
  ssub  := Rminus;
  smul  := Rmult;
  sopp  := Ropp
|}.

(** Unfolds the scalar operations at the instance on [R]. *)
Ltac on_reals := cbn [szero sone sadd ssub smul sopp R_scalar] in *.

(** Membership in a list given entry by entry, decided by cases. *)
Ltac each_entry H :=
  simpl in H;
  repeat match type of H with
         | _ \/ _ => destruct H as [H|H]
         end;
  try contradiction; subst.

(** ** Evaluations with a hidden world

    An objective is a black box for the loops: it simulates a circuit, may
    draw samples, may count its calls.  [Eval W A] is a computation that
    returns an [A] and threads that hidden world [W]. *)

Definition Eval (W A : Type) : Type := W -> A * W.

Definition ret {W A : Type} (a : A) : Eval W A := fun w => (a, w).

Definition bind {W A B : Type} (m : Eval W A) (k : A -> Eval W B) : Eval W B :=
  fun w => let (a, w') := m w in k a w'.

Declare Scope eval_scope.
Delimit Scope eval_scope with eval.
Notation "x <- m ;; k" := (bind m (fun x => k))
  (at level 61, m at next level, right associativity) : eval_scope.
Notation "' p <- m ;; k" := (bind m (fun x => let 'p := x in k))
  (at level 61, p pattern, m at next level, right associativity) : eval_scope.
Open Scope eval_scope.

(** The value and the final world of a run. *)
Definition result {W A : Type} (m : Eval W A) (w : W) : A := fst (m w).
Definition world_after {W A : Type} (m : Eval W A) (w : W) : W := snd (m w).

(** An objective without hidden state. *)
Definition pure_objective {W X A : Type} (f : X -> A) : X -> Eval W A :=
  fun x => ret (f x).

(** Instrumentation: the same evaluation, with its calls counted. *)
Definition counted {W A : Type} (m : Eval W A) : Eval (W * nat) A :=
  fun wc => let (a, w') := m (fst wc) in (a, (w', S (snd wc))).

(** Instrumentation: the same evaluation, with the point it was asked at
    appended to a log. *)
Definition logged {W X A : Type} (f : X -> Eval W A) : X -> Eval (W * list X) A :=
  fun x wl => let (a, w') := f x (fst wl) in (a, (w', snd wl ++ [x])).

(** [for i in range(n): st = body(i, st)]. *)
Fixpoint for_each {W St : Type} (body : nat -> St -> Eval W St)
    (indices : list nat) (st : St) : Eval W St :=
  match indices with
  | [] => ret st
  | i :: rest => st' <- body i st ;; for_each body rest st'
  end.

Definition for_range {W St : Type} (n : nat) (body : nat -> St -> Eval W St)
    (st : St) : Eval W St :=
  for_each body (seq 0 n) st.

(** ** vqe_with_two_qubits.ipynb: the gradient-descent loop *)

Module VQE.
Section Loop.
Context {T : Type} {ST : Scalar T} {W : Type}.

Definition ParameterVector : Type := list T.

(** What one differentiated evaluation of the objective yields: the cost
    ([forward]) and the gradient at the evaluated point. *)
Definition ObjectiveResult : Type := (T * list T)%type.

Definition Objective : Type := ParameterVector -> Eval W ObjectiveResult.

(** [opt = qml.GradientDescentOptimizer(stepsize=0.2)] *)
Record GradientDescentOptimizer : Type := { stepsize : T }.

(** Modelled from the spec: [GradientDescentOptimizer.apply_grad] belongs to
    the PennyLane library, which the notebook calls and the repository does
    not contain.  The rule is the steepest-descent update
    [parameters[i] <- parameters[i] - step_size * gradient[i]], every
    coordinate paired with the gradient coordinate of the same index.  The
    rule is defined for a gradient of the length of the parameter vector,
    which is what a differentiated objective returns and the only gradient
    [VariationalOptimizer.step] lets through; on any other the pairing stops
    at the shorter list, and no statement below relies on that. *)
Definition apply_grad (opt : GradientDescentOptimizer)
    (grad args : list T) : ParameterVector :=
  map (fun ge => ssub (snd ge) (smul (stepsize opt) (fst ge))) (combine grad args).

(** Modelled from the spec: [GradientDescentOptimizer.step_and_cost] of the
    PennyLane library (not in the repository): one differentiated evaluation
    of the objective at the vector passed in, then the update; returns the
    new vector and the cost of that evaluation.  This is the step the
    notebook's loop takes, and the successful path of the spec's [step]; the
    error conditions the spec adds to [step] are those of
    [VariationalOptimizer.step] below. *)
Definition step_and_cost (opt : GradientDescentOptimizer)
    (objective_fn : Objective) (args : ParameterVector)
    : Eval W (ParameterVector * T) :=
  '(forward, g) <- objective_fn args ;;
  ret (apply_grad opt g args, forward).

(** The variables of the optimisation cell; [stdout] holds, for each
    [print], the step number and the cost it formats. *)
Record vars : Type := {
  params : ParameterVector;
  energy_track : list T;
  stdout : list (nat * T)
}.

(** The body of [for i in range(steps)]:
<<
    params, cost = opt.step_and_cost(cost_fn, params)
    energy_track.append(cost)
    if i % 10 == 0:
        print(f"Step {i:2d} | Energy = {cost:.6f}")
>> *)
Definition loop_body (opt : GradientDescentOptimizer) (cost_fn : Objective)
    (i : nat) (v : vars) : Eval W vars :=
  '(params', cost) <- step_and_cost opt cost_fn (params v) ;;
  let energy_track' := energy_track v ++ [cost] in
  let stdout' := if i mod 10 =? 0 then stdout v ++ [(i, cost)] else stdout v in
  ret {| params := params'; energy_track := energy_track'; stdout := stdout' |}.

(** [energy_track = []] and the initial [params]. *)
Definition init (params0 : ParameterVector) : vars :=
  {| params := params0; energy_track := []; stdout := [] |}.

(** The whole cell. *)
Definition run (opt : GradientDescentOptimizer) (cost_fn : Objective)
    (steps : nat) (params0 : ParameterVector) : Eval W vars :=
  for_range steps (loop_body opt cost_fn) (init params0).

(** The parameters a run begun at [params0] in world [w] holds after [i]
    iterations, that is at the start of iteration [i]; the cost the
    objective returns there, and the gradient it returns with it. *)
Definition params_at (opt : GradientDescentOptimizer) (cost_fn : Objective)
    (params0 : ParameterVector) (w : W) (i : nat) : ParameterVector :=
  params (result (run opt cost_fn i params0) w).
Definition cost_at (opt : GradientDescentOptimizer) (cost_fn : Objective)
    (params0 : ParameterVector) (w : W) (i : nat) : T :=
  fst (result (cost_fn (params_at opt cost_fn params0 w i))
              (world_after (run opt cost_fn i params0) w)).
Definition grad_at (opt : GradientDescentOptimizer) (cost_fn : Objective)
    (params0 : ParameterVector) (w : W) (i : nat) : list T :=
  snd (result (cost_fn (params_at opt cost_fn params0 w i))
              (world_after (run opt cost_fn i params0) w)).

End Loop.
Arguments ParameterVector : clear implicits.
Arguments ObjectiveResult : clear implicits.
Arguments Objective : clear implicits.
Arguments GradientDescentOptimizer : clear implicits.
Arguments vars : clear implicits.
End VQE.

(** ** The optimizer handle of the spec

    The notebook hands every value the objective returns to the library's
    [step_and_cost].  The spec wraps that step in a handle with a life cycle
    and refuses values the update rule cannot use.  No notebook defines the
    handle: the definitions of this module follow the spec's words. *)

Module VariationalOptimizer.

(** Modelled from the spec: the error taxonomy of section 7. *)
Inductive Error : Type :=
  | InvalidArgument
  | InvalidGradientShape
  | NonFiniteValue
  | OptimizerErrored.

(** Modelled from the spec: the states of a handle that [initialize] and
    [step] move between, "not started -> running -> errored".  The spec's
    state "finished" is reached by [run] alone, which [step] does not
    need. *)
Inductive Lifecycle : Type :=
  | not_started
  | running
  | errored.

(** Modelled from the spec: the handle bundles the mutable state of a run:
    the current ParameterVector, the step size given at [initialize], the
    OptimizationTrace and the life-cycle state.  The steepest-descent rule
    needs no further OptimizerState. *)
Record OptimizerHandle : Type := {
  parameters : list float;
  step_size : float;
  trace : list float;
  lifecycle : Lifecycle
}.

(** Modelled from the spec: [initialize(initial_parameters, step_size,
    max_iterations)] requires a non-empty parameter vector, [step_size > 0]
    and [max_iterations >= 1], and fails with [InvalidArgument] otherwise;
    the handle carries a copy of the initial parameters and an empty
    trace. *)
Definition initialize (initial_parameters : list float) (step_size : float)
    (max_iterations : nat) : Error + OptimizerHandle :=
  match initial_parameters with
  | [] => inl InvalidArgument
  | _ :: _ =>
      if PrimFloat.ltb 0%float step_size && (1 <=? max_iterations)
      then inr {| parameters := initial_parameters; step_size := step_size;
                  trace := []; lifecycle := not_started |}
      else inl InvalidArgument
  end.

(** Modelled from the spec: a value is refused when it is "NaN or
    infinite". *)
Definition non_finite (x : float) : bool :=
  PrimFloat.is_nan x || PrimFloat.is_infinity x.

(** Modelled from the spec: the handle after an error: parameters and trace
    as they were, the state "errored". *)
Definition mark_errored (handle : OptimizerHandle) : OptimizerHandle :=
  {| parameters := parameters handle; step_size := step_size handle;
     trace := trace handle; lifecycle := errored |}.

(** Modelled from the spec: [step(handle, objective)].  On an errored handle
    it fails with [OptimizerErrored].  Otherwise it evaluates the objective
    once, at the current parameters; fails with [InvalidGradientShape] if
    the gradient has not the length of the parameter vector, and with
    [NonFiniteValue] if the cost or a gradient component is NaN or infinite,
    in both cases leaving the parameters unchanged and the handle errored;
    and otherwise moves the parameters against the gradient by the
    steepest-descent rule, appends the cost to the trace and returns the new
    parameters with that cost.  The result comes with the handle as the
    call leaves it. *)
Definition step {W : Type} (handle : OptimizerHandle) (objective : VQE.Objective float W)
    : Eval W ((Error + (list float * float)) * OptimizerHandle) :=
  match lifecycle handle with
  | errored => ret (inl OptimizerErrored, handle)
  | _ =>
      '(cost, gradient) <- objective (parameters handle) ;;
      if negb (length gradient =? length (parameters handle))
      then ret (inl InvalidGradientShape, mark_errored handle)
      else if non_finite cost || existsb non_finite gradient
      then ret (inl NonFiniteValue, mark_errored handle)
      else
        let updated :=
          VQE.apply_grad {| VQE.stepsize := step_size handle |} gradient (parameters handle) in
        ret (inr (updated, cost),
             {| parameters := updated; step_size := step_size handle;
                trace := trace handle ++ [cost]; lifecycle := running |})
  end.

End VariationalOptimizer.

(** ** quantum_circuit_state_learning_jax.ipynb: the optax loop *)

Module StateLearning.
Section Loss.
Context {T : Type} {ST : Scalar T}.

(** A complex amplitude, as its real and imaginary parts. *)
Definition Cplx : Type := (T * T)%type.

Definition czero : Cplx := (szero, szero).
Definition creal (z : Cplx) : T := fst z.
Definition cimag (z : Cplx) : T := snd z.
Definition cconj (z : Cplx) : Cplx := (fst z, sopp (snd z)).
Definition cadd (x y : Cplx) : Cplx := (sadd (fst x) (fst y), sadd (snd x) (snd y)).
Definition csub (x y : Cplx) : Cplx := (ssub (fst x) (fst y), ssub (snd x) (snd y)).
Definition cmul (x y : Cplx) : Cplx :=
  (ssub (smul (fst x) (fst y)) (smul (snd x) (snd y)),
   sadd (smul (fst x) (snd y)) (smul (snd x) (fst y))).

(** A state vector: the amplitudes [qml.state()] returns.  A real array such
    as the notebook's [target_state] is the vector of its entries with
    imaginary part zero. *)
Definition State : Type := list Cplx.

(** Two one-dimensional arrays broadcast against each other when they have
    one length or one of them has length 1. *)
Definition broadcasts (a b : State) : Prop :=
  length a = length b \/ length a = 1 \/ length b = 1.

(** [output_state - target_state] on one-dimensional arrays: entry by entry
    for two arrays of one length, and an array of length 1 is subtracted
    from, or has subtracted from it, every entry of the other.  On two
    arrays that do not broadcast jnp raises a [TypeError]; the entries of
    the common prefix stand in for that here, and the statements about the
    difference are restricted to arrays that broadcast. *)
Definition vsub (a b : State) : State :=
  match a, b with
  | [x], _ :: _ :: _ => map (fun y => csub x y) b
  | _ :: _ :: _, [y] => map (fun x => csub x y) a
  | _, _ => map (fun xy => csub (fst xy) (snd xy)) (combine a b)
  end.

(** [jnp.vdot(a, b)]: the first argument is conjugated. *)
Definition vdot (a b : State) : Cplx :=
  fold_left (fun acc xy => cadd acc (cmul (cconj (fst xy)) (snd xy)))
            (combine a b) czero.

Section WithCircuit.
Variable Params : Type.
(** The QNode [circuit(params)]; its gates are the library's. *)
Variable circuit : Params -> State.

(**
<<
@jax.jit
def loss_fn(params, target_state):
    output_state = circuit(params)
    diff = output_state - target_state
    return jnp.vdot(diff, diff).real
>> *)
Definition loss_fn (params : Params) (target_state : State) : T :=
  let output_state := circuit params in
  let diff := vsub output_state target_state in
  creal (vdot diff diff).

End WithCircuit.
End Loss.
Arguments Cplx : clear implicits.
Arguments State : clear implicits.

Section Loop.
Context {T : Type} {ST : Scalar T} {W : Type}.
Variables Params Grads Updates OptState : Type.
(** The QNode [circuit(params)] the objective [loss_fn] runs. *)
Variable circuit : Params -> State T.

(** [jax.value_and_grad(loss_fn)]: one differentiated evaluation. *)
Variable value_and_grad : (Params -> State T -> T) -> Params -> State T -> Eval W (T * Grads).
(** [optimizer.update] and [optax.apply_updates] of [optax.adam(0.1)]. *)
Variable optimizer_update : Grads -> OptState -> Updates * OptState.
Variable apply_updates : Params -> Updates -> Params.

(**
<<
@jax.jit
def train_step(params, opt_state, target_state):
    loss, grads = jax.value_and_grad(loss_fn)(params, target_state)
    updates, opt_state = optimizer.update(grads, opt_state)
    params = optax.apply_updates(params, updates)
    return params, opt_state, loss
>> *)
Definition train_step (params : Params) (opt_state : OptState)
    (target_state : State T) : Eval W (Params * OptState * T) :=
  '(loss, grads) <- value_and_grad (loss_fn circuit) params target_state ;;
  let '(updates, opt_state) := optimizer_update grads opt_state in
  let params := apply_updates params updates in
  ret (params, opt_state, loss).

Record vars : Type := {
  params : Params;
  opt_state : OptState;
  loss_history : list T;
  stdout : list (nat * T)
}.

(** The body of [for i in range(num_steps)]:
<<
    params, opt_state, loss = train_step(params, opt_state, target_state)
    loss_history.append(loss)
    if i % 10 == 0:
        print(f"Step {i:3d} | Loss: {loss:.6f}")
>> *)
Definition loop_body (target_state : State T) (i : nat) (v : vars) : Eval W vars :=
  '(params', opt_state', loss) <- train_step (params v) (opt_state v) target_state ;;
  let loss_history' := loss_history v ++ [loss] in
  let stdout' := if i mod 10 =? 0 then stdout v ++ [(i, loss)] else stdout v in
  ret {| params := params'; opt_state := opt_state';
         loss_history := loss_history'; stdout := stdout' |}.

Definition init (params0 : Params) (opt_state0 : OptState) : vars :=
  {| params := params0; opt_state := opt_state0; loss_history := []; stdout := [] |}.

Definition run (num_steps : nat) (params0 : Params) (opt_state0 : OptState)
    (target_state : State T) : Eval W vars :=
  for_range num_steps (loop_body target_state) (init params0 opt_state0).

End Loop.
Arguments vars : clear implicits.
End StateLearning.

(** ** Reading a trace *)

Module Trace.
Section Best.
Variable T : Type.
(** The strict comparison of costs ([<] on floats). *)
Variable ltb : T -> T -> bool.

(** Scan from position [i], holding the best position and value so far; a
    later entry replaces them only when it is strictly smaller. *)
Fixpoint best_from (i : nat) (bi : nat) (bv : T) (l : list T) : nat * T :=
  match l with
  | [] => (bi, bv)
  | x :: rest =>
      if ltb x bv then best_from (S i) i x rest
      else best_from (S i) bi bv rest
  end.

(** Modelled from the spec: [best(trace)] is an operation of the spec's
    reporting interface that no notebook defines.  It returns the position
    and value of the minimum cost observed, ties broken by earliest index;
    an empty trace has no best entry. *)
Definition best (trace : list T) : option (nat * T) :=
  match trace with
  | [] => None
  | x :: rest => Some (best_from 1 0 x rest)
  end.

End Best.
End Trace.

(** ** Test objectives *)

Section Quadratic.
Context {T : Type} {ST : Scalar T}.

(** The quadratic objective of the spec's test list:
    [f(p) = sum_i (p_i - target_i)^2] with gradient [2 (p - target)]. *)
Definition quadratic_cost (target p : list T) : T :=
  fold_left (fun acc pt => sadd acc (smul (ssub (fst pt) (snd pt)) (ssub (fst pt) (snd pt))))
            (combine p target) szero.

Definition quadratic_grad (target p : list T) : list T :=
  map (fun pt => smul (sadd sone sone) (ssub (fst pt) (snd pt))) (combine p target).

Definition quadratic (target : list T) : list T -> T * list T :=
  fun p => (quadratic_cost target p, quadratic_grad target p).

Definition quadratic_objective {W : Type} (target : list T) : VQE.Objective T W :=
  pure_objective (quadratic target).

End Quadratic.

(** The factor by which one step of size [eta] on the quadratic objective
    scales every distance to the target. *)
Definition contraction (eta : R) : R := (1 - 2 * eta)%R.

(** ** Concrete data on binary64 floats *)

(** [opt = qml.GradientDescentOptimizer(stepsize=0.2)] and
    [params = np.array([0.5, -0.5])] of the notebook. *)
Definition notebook_opt : VQE.GradientDescentOptimizer float :=
  {| VQE.stepsize := 0.2%float |}.
Definition notebook_params : list float := [0.5; -0.5]%float.

(** An objective whose evaluation yields NaN, cost and gradient alike (a
    cost function that computes [0/0], say). *)
Definition nan_objective : VQE.Objective float unit :=
  pure_objective (fun _ => (nan, [nan; nan])).

(** An objective whose gradient has one component too few. *)
Definition short_gradient_objective : VQE.Objective float unit :=
  pure_objective (fun _ => (1%float, [0.5%float])).

(** A one-parameter objective whose cost is the parameter itself, with
    slope 1 while it is positive and 0 from then on.  From [5.0] with step
    size [1.0] its costs are 5, 4, 3, 2, 1, 0, 0, 0, ...: constant from
    iteration 5 on. *)
Definition countdown_objective : VQE.Objective float unit :=
  pure_objective (fun p =>
    match p with
    | [x] => (x, [if PrimFloat.ltb 0%float x then 1%float else 0%float])
    | _ => (0%float, [])
    end).
Definition unit_step_opt : VQE.GradientDescentOptimizer float :=
  {| VQE.stepsize := 1%float |}.

(** The state the circuit of the state-learning notebook prepares at its
    initial parameters [jnp.zeros((2,3))], where every rotation is the
    identity and the CNOT leaves [|00>] in place; and the notebook's
    target, the Bell state [(|00> + |11>) / sqrt 2]. *)
Definition ket00 {T : Type} {ST : Scalar T} : list (T * T) :=
  [(sone, szero); (szero, szero); (szero, szero); (szero, szero)].
Definition circuit_at_zeros {T : Type} {ST : Scalar T} : unit -> list (T * T) :=
  fun _ => ket00.
Definition bell_state : list (float * float) :=
  let h := PrimFloat.div 1%float (PrimFloat.sqrt 2%float) in
  [(h, 0%float); (0%float, 0%float); (0%float, 0%float); (h, 0%float)].

(** ** Floats and states in IEEE arithmetic *)

(** A float is finite when it is neither NaN nor an infinity; a state is
    finite when the real and imaginary parts of all its amplitudes are. *)
Definition finite_float (x : spec_float) : bool :=
  match x with
  | S754_zero _ | S754_finite _ _ _ => true
  | S754_infinity _ | S754_nan => false
  end.

Definition finite_state (s : StateLearning.State spec_float) : Prop :=
  Forall (fun z => finite_float (fst z) = true /\ finite_float (snd z) = true) s.

(** [signed s x]: [x] is a zero, or it is an infinity or a non-zero number
    of sign [s] (negative where [true]); never NaN. *)
Definition signed (s : bool) (x : spec_float) : Prop :=
  match x with
  | S754_nan => False
  | S754_zero _ => True
  | S754_infinity s' | S754_finite s' _ _ => s' = s
  end.

(** Two targets in binary32: one with a NaN amplitude, and [|00>] with an
    amplitude of [2^-100] added on [|01>], where the output of the circuit
    at its initial parameters is [|00>]. *)
Definition nan_target : StateLearning.State spec_float :=
  [(S754_nan, S754_zero false); (S754_zero false, S754_zero false);
   (S754_zero false, S754_zero false); (S754_zero false, S754_zero false)].
Definition nearby_target : StateLearning.State spec_float :=
  [(SFone 24 128, S754_zero false); (S754_finite false 8388608 (-123), S754_zero false);
   (S754_zero false, S754_zero false); (S754_zero false, S754_zero false)].

(** ** Reading the last entry of a trace *)

(** [l[-1]]: the last entry of a Python list, [None] standing for the
    [IndexError] an empty list raises. *)
Definition last_entry {A : Type} (l : list A) : option A :=
  match rev l with
  | [] => None
  | x :: _ => Some x
  end.

(** The iterations of a loop of [n] steps at which [if i % 10 == 0] holds. *)
Definition printed_steps (n : nat) : list nat :=
  filter (fun i => i mod 10 =? 0) (seq 0 n).

(** ** group_theory_in_quantum_compilation.ipynb: Pauli conjugation *)

Module GroupTheory.
Section Arrays.
Context {T : Type} {ST : Scalar T}.

(** A two-dimensional numpy array of complex numbers, as its rows.  An
    array has a shape: all its rows have one length.  Every array of the
    notebook's cells is two-dimensional and finite; arrays of one or of
    three and more dimensions, which [@] accepts too, are not values of
    this type. *)
Definition Matrix : Type := list (list (StateLearning.Cplx T)).

Definition has_shape (n k : nat) (m : Matrix) : Prop :=
  length m = n /\ Forall (fun r => length r = k) m.

(** The numbers of rows and of columns (an array with no row is taken to
    have no column). *)
Definition nrows (m : Matrix) : nat := length m.
Definition ncols (m : Matrix) : nat :=
  match m with
  | [] => 0
  | r :: _ => length r
  end.

(** The numbers [1], [1j] and [-z]. *)
Definition cone : StateLearning.Cplx T := (sone, szero).
Definition imag_unit : StateLearning.Cplx T := (szero, sone).
Definition cneg (z : StateLearning.Cplx T) : StateLearning.Cplx T :=
  (sopp (fst z), sopp (snd z)).

(** Column [j] of an array, and [m.T]. *)
Definition col (j : nat) (m : Matrix) : list (StateLearning.Cplx T) :=
  map (fun r => nth j r StateLearning.czero) m.
Definition transpose (m : Matrix) : Matrix :=
  map (fun j => col j m) (seq 0 (ncols m)).

(** [m.conj()]. *)
Definition conj (m : Matrix) : Matrix := map (map StateLearning.cconj) m.

(** The sum of the products of a row and a column. *)
Definition dot (r c : list (StateLearning.Cplx T)) : StateLearning.Cplx T :=
  fold_left (fun acc xy => StateLearning.cadd acc (StateLearning.cmul (fst xy) (snd xy)))
            (combine r c) StateLearning.czero.

(** [a @ b]: the matrix product; [None] stands for the [ValueError] numpy
    raises when the columns of [a] are not as many as the rows of [b]. *)
Definition matmul (a b : Matrix) : option Matrix :=
  if ncols a =? nrows b
  then Some (map (fun r => map (fun j => dot r (col j b)) (seq 0 (ncols b))) a)
  else None.

(** [np.kron(a, b)]: every entry of [a] replaced by that multiple of [b]. *)
Definition kron (a b : Matrix) : Matrix :=
  flat_map (fun ra => map (fun rb => flat_map (fun x => map (StateLearning.cmul x) rb) ra) b) a.

(** [np.eye(n)]. *)
Definition eye (n : nat) : Matrix :=
  map (fun i => map (fun j => if i =? j then cone else StateLearning.czero) (seq 0 n))
      (seq 0 n).

(** A scalar multiple of an array. *)
Definition scale (s : StateLearning.Cplx T) (m : Matrix) : Matrix :=
  map (map (StateLearning.cmul s)) m.

(**
<<
I = np.eye(2)
X = np.array([[0, 1], [1, 0]])
Y = np.array([[0, -1j], [1j, 0]])
Z = np.array([[1, 0], [0, -1]])
>> *)
Definition I : Matrix := eye 2.
Definition X : Matrix :=
  [[StateLearning.czero; cone]; [cone; StateLearning.czero]].
Definition Y : Matrix :=
  [[StateLearning.czero; cneg imag_unit]; [imag_unit; StateLearning.czero]].
Definition Z : Matrix :=
  [[cone; StateLearning.czero]; [StateLearning.czero; cneg cone]].

(** The Kronecker products for two qubits. *)
Definition XI : Matrix := kron X I.
Definition IX : Matrix := kron I X.
Definition YI : Matrix := kron Y I.
Definition IY : Matrix := kron I Y.
Definition ZI : Matrix := kron Z I.
Definition IZ : Matrix := kron I Z.

(** The CNOT matrix (control=0, target=1). *)
Definition CNOT : Matrix :=
  [[cone; StateLearning.czero; StateLearning.czero; StateLearning.czero];
   [StateLearning.czero; cone; StateLearning.czero; StateLearning.czero];
   [StateLearning.czero; StateLearning.czero; StateLearning.czero; cone];
   [StateLearning.czero; StateLearning.czero; cone; StateLearning.czero]].

(**
<<
def conjugate(op, gate):
    return gate @ op @ gate.conj().T
>> *)
Definition conjugate (op gate : Matrix) : option Matrix :=
  match matmul gate op with
  | Some gate_op => matmul gate_op (transpose (conj gate))
  | None => None
  end.

(** The four single-qubit Pauli matrices of the cell, by name. *)
Inductive Pauli : Type := PI | PX | PY | PZ.
Definition pauli (p : Pauli) : Matrix :=
  match p with
  | PI => I
  | PX => X
  | PY => Y
  | PZ => Z
  end.

(** [S = qml.matrix(qml.S(0))], the matrix [[1, 0], [0, i]] the notebook
    writes out. *)
Definition S : Matrix :=
  [[cone; StateLearning.czero]; [StateLearning.czero; imag_unit]].

End Arrays.
Arguments Matrix : clear implicits.

(** [H = qml.matrix(qml.Hadamard(0))], the matrix
    [1/sqrt 2 * [[1, 1], [1, -1]]] the notebook writes out, as the binary64
    array it is: its entries are the float nearest to [1/sqrt 2], not that
    number. *)
Definition H : Matrix float :=
  let h := PrimFloat.div 1%float (PrimFloat.sqrt 2%float) in
  [[(h, 0%float); (h, 0%float)];
   [(h, 0%float); (PrimFloat.opp h, 0%float)]].

(** Two lists compared entry by entry; lists of different lengths differ. *)
Fixpoint all2 {A : Type} (f : A -> A -> bool) (l1 l2 : list A) : bool :=
  match l1, l2 with
  | [], [] => true
  | x :: l1', y :: l2' => f x y && all2 f l1' l2'
  | _, _ => false
  end.

(** [np.array_equal(a, b)]: one shape and [a == b] at every entry, in
    binary64 ([0.0 == -0.0] holds, [nan == nan] does not). *)
Definition array_equal (a b : Matrix float) : bool :=
  all2 (all2 (fun x y => PrimFloat.eqb (fst x) (fst y) && PrimFloat.eqb (snd x) (snd y))) a b.

(** One shape, and real and imaginary parts within [eps] of each other at
    every entry.  With [eps] below [0.00005], [np.round(a, 4)] and
    [np.round(b, 4)] print the same array when the entries of [b] have at
    most four decimals. *)
Definition within (eps : float) (a b : Matrix float) : bool :=
  all2 (all2 (fun x y =>
          PrimFloat.ltb (PrimFloat.abs (PrimFloat.sub (fst x) (fst y))) eps &&
          PrimFloat.ltb (PrimFloat.abs (PrimFloat.sub (snd x) (snd y))) eps)) a b.

(** What two array expressions have in common when neither raises. *)
Definition both_return (same : Matrix float -> Matrix float -> bool)
    (a b : option (Matrix float)) : bool :=
  match a, b with
  | Some a', Some b' => same a' b'
  | _, _ => false
  end.

End GroupTheory.

(** [x] when it is there, then [f x]: the sequencing of two steps either of
    which may raise. *)
Definition and_then {A B : Type} (x : option A) (f : A -> option B) : option B :=
  match x with
  | Some a => f a
  | None => None
  end.

(** The update of a two-qubit Pauli string under CNOT (control 0, target 1)
    that the notebook tabulates on the six generators, extended to all
    sixteen strings: the sign is negative where [true]. *)
Definition cnot_rule (p q : GroupTheory.Pauli)
    : bool * GroupTheory.Pauli * GroupTheory.Pauli :=
  match p, q with
  | GroupTheory.PI, GroupTheory.PI => (false, GroupTheory.PI, GroupTheory.PI)
  | GroupTheory.PI, GroupTheory.PX => (false, GroupTheory.PI, GroupTheory.PX)
  | GroupTheory.PI, GroupTheory.PY => (false, GroupTheory.PZ, GroupTheory.PY)
  | GroupTheory.PI, GroupTheory.PZ => (false, GroupTheory.PZ, GroupTheory.PZ)
  | GroupTheory.PX, GroupTheory.PI => (false, GroupTheory.PX, GroupTheory.PX)
  | GroupTheory.PX, GroupTheory.PX => (false, GroupTheory.PX, GroupTheory.PI)
  | GroupTheory.PX, GroupTheory.PY => (false, GroupTheory.PY, GroupTheory.PZ)
  | GroupTheory.PX, GroupTheory.PZ => (true, GroupTheory.PY, GroupTheory.PY)
  | GroupTheory.PY, GroupTheory.PI => (false, GroupTheory.PY, GroupTheory.PX)
  | GroupTheory.PY, GroupTheory.PX => (false, GroupTheory.PY, GroupTheory.PI)
  | GroupTheory.PY, GroupTheory.PY => (true, GroupTheory.PX, GroupTheory.PZ)
  | GroupTheory.PY, GroupTheory.PZ => (false, GroupTheory.PX, GroupTheory.PY)
  | GroupTheory.PZ, GroupTheory.PI => (false, GroupTheory.PZ, GroupTheory.PI)
  | GroupTheory.PZ, GroupTheory.PX => (false, GroupTheory.PZ, GroupTheory.PX)
  | GroupTheory.PZ, GroupTheory.PY => (false, GroupTheory.PI, GroupTheory.PY)
  | GroupTheory.PZ, GroupTheory.PZ => (false, GroupTheory.PI, GroupTheory.PZ)
  end.

(** The updates of a single-qubit Pauli under the Hadamard and the phase
    gate that the notebook lists, with the identity added. *)
Definition h_rule (p : GroupTheory.Pauli) : bool * GroupTheory.Pauli :=
  match p with
  | GroupTheory.PI => (false, GroupTheory.PI)
  | GroupTheory.PX => (false, GroupTheory.PZ)
  | GroupTheory.PY => (true, GroupTheory.PY)
  | GroupTheory.PZ => (false, GroupTheory.PX)
  end.
Definition s_rule (p : GroupTheory.Pauli) : bool * GroupTheory.Pauli :=
  match p with
  | GroupTheory.PI => (false, GroupTheory.PI)
  | GroupTheory.PX => (false, GroupTheory.PY)
  | GroupTheory.PY => (true, GroupTheory.PX)
  | GroupTheory.PZ => (false, GroupTheory.PZ)
  end.

(** The signed Pauli a rule names, as a matrix. *)
Definition signed_pauli {T : Type} {ST : Scalar T}
    (r : bool * GroupTheory.Pauli) : GroupTheory.Matrix T :=
  let '(negative, p) := r in
  if negative
  then GroupTheory.scale (GroupTheory.cneg GroupTheory.cone) (GroupTheory.pauli p)
  else GroupTheory.pauli p.

(** The signed Pauli string a rule names, as a matrix. *)
Definition signed_pauli_string {T : Type} {ST : Scalar T}
    (r : bool * GroupTheory.Pauli * GroupTheory.Pauli) : GroupTheory.Matrix T :=
  let '(negative, p, q) := r in
  let m := GroupTheory.kron (GroupTheory.pauli p) (GroupTheory.pauli q) in
  if negative then GroupTheory.scale (GroupTheory.cneg GroupTheory.cone) m else m.

(** Solves an equation between arrays of real expressions entry by entry. *)
Ltac entrywise := vm_compute; repeat (f_equal; try ring).

(** ** hybrid_vae_pytorch.ipynb: the quantum encoder *)

(** A step applied to each entry of a list in turn, any of which may
    raise: the list of results, or [None] as soon as one step raises. *)
Fixpoint traverse {A B : Type} (f : A -> option B) (l : list A) : option (list B) :=
  match l with
  | [] => Some []
  | a :: rest =>
      and_then (f a) (fun b =>
      and_then (traverse f rest) (fun bs => Some (b :: bs)))
  end.

Module HybridVAE.
Section Encoder.
Context {T : Type}.

(** The operations a QNode queues and the measurements it returns. *)
Inductive Operation : Type :=
  | RY (angle : T) (wires : nat)
  | RZ (angle : T) (wires : nat)
  | CNOT (control target : nat).

Inductive Measurement : Type :=
  | expval_PauliZ (wires : nat).

Record Tape : Type := {
  operations : list Operation;
  measurements : list Measurement
}.

(** The wires an operation and a measurement act on. *)
Definition wires_of (op : Operation) : list nat :=
  match op with
  | RY _ w => [w]
  | RZ _ w => [w]
  | CNOT c t => [c; t]
  end.
Definition wire_of (m : Measurement) : nat :=
  match m with
  | expval_PauliZ w => w
  end.

(** [weights[l, i, k]] of a three-dimensional tensor; [None] stands for the
    [IndexError] an index out of range raises. *)
Definition index3 (weights : list (list (list T))) (l i k : nat) : option T :=
  and_then (nth_error weights l) (fun wl =>
  and_then (nth_error wl i) (fun wli => nth_error wli k)).

(** [for i in range(n_qubits): qml.RY(inputs[i], wires=i)] *)
Definition encoding (n_qubits : nat) (inputs : list T) : option (list Operation) :=
  traverse (fun i => and_then (nth_error inputs i) (fun x => Some (RY x i)))
           (seq 0 n_qubits).

(** One variational layer:
<<
        for i in range(n_qubits):
            qml.RY(weights[l, i, 0], wires=i)
            qml.RZ(weights[l, i, 1], wires=i)
        qml.CNOT(wires=[0, 1])
>> *)
Definition layer (n_qubits : nat) (weights : list (list (list T))) (l : nat)
    : option (list Operation) :=
  and_then
    (traverse (fun i =>
       and_then (index3 weights l i 0) (fun a =>
       and_then (index3 weights l i 1) (fun b => Some [RY a i; RZ b i])))
       (seq 0 n_qubits))
    (fun rotations => Some (concat rotations ++ [CNOT 0 1])).

(** The QNode [quantum_encoder(inputs, weights)], with the notebook's
    settings [n_qubits] and [n_layers] as parameters: the tape it records,
    or [None] when an index is out of range. *)
Definition quantum_encoder (n_qubits n_layers : nat)
    (inputs : list T) (weights : list (list (list T))) : option Tape :=
  and_then (encoding n_qubits inputs) (fun enc =>
  and_then (traverse (layer n_qubits weights) (seq 0 n_layers)) (fun layers =>
  Some {| operations := enc ++ concat layers;
          measurements := map expval_PauliZ (seq 0 n_qubits) |})).

(** [torch.stack(batch_out)]: the rows as one tensor; an empty list of rows
    raises. *)
Definition stack {A : Type} (batch_out : list A) : option (list A) :=
  match batch_out with
  | [] => None
  | _ => Some batch_out
  end.

(** [dev = qml.device("default.qubit", wires=n_qubits)] executing a tape.
    A tape that names a wire the device does not have is refused ([None]
    stands for the [WireError]); on any other tape the simulation
    [simulate] gives the expectation values of its measurements. *)
Definition on_device (n_wires : nat) (tape : Tape) : bool :=
  forallb (fun op => forallb (fun w => w <? n_wires) (wires_of op)) (operations tape) &&
  forallb (fun m => wire_of m <? n_wires) (measurements tape).
Definition execute (n_wires : nat) (simulate : Tape -> list T) (tape : Tape)
    : option (list T) :=
  if on_device n_wires tape then Some (simulate tape) else None.

Section Forward.
Variables n_qubits n_layers : nat.
(** The simulation of a tape on the device, and
    [torch.tensor(res, dtype=torch.float32)]. *)
Variable simulate : Tape -> list T.
Variable to_float32 : list T -> list T.

(**
<<
    def forward(self, x):
        batch_out = []
        for i in range(x.shape[0]):
            res = quantum_encoder(x[i], self.q_weights)
            res_torch = torch.tensor(res, dtype=torch.float32)
            batch_out.append(res_torch)
        return torch.stack(batch_out)
>> *)
Definition forward (q_weights : list (list (list T))) (x : list (list T))
    : option (list (list T)) :=
  and_then
    (traverse (fun row =>
       and_then (quantum_encoder n_qubits n_layers row q_weights) (fun tape =>
       and_then (execute n_qubits simulate tape) (fun res =>
       Some (to_float32 res)))) x)
    stack.

End Forward.
End Encoder.
Arguments Operation : clear implicits.
Arguments Tape : clear implicits.
End HybridVAE.

(* ================================================================== *)
(** * Part II: properties *)
(* ================================================================== *)

(** ** The loop combinator *)

Section ForRange.
Context {W St : Type}.
Variable body : nat -> St -> Eval W St.

Lemma for_each_app (l1 l2 : list nat) (st : St) (w : W) :
  for_each body (l1 ++ l2) st w =
  for_each body l2 (result (for_each body l1 st) w) (world_after (for_each body l1 st) w).
Proof.
  revert st w. induction l1 as [|i l1 IH]; intros st w.
  - reflexivity.
  - simpl. unfold bind, result, world_after in *.
    destruct (body i st w) as [st' w']. apply IH.
Qed.

(** One more iteration runs the body once more, on what the shorter loop
    left. *)
Lemma for_range_S (n : nat) (st : St) (w : W) :
  for_range (S n) body st w =
  body n (result (for_range n body st) w) (world_after (for_range n body st) w).
Proof.
  unfold for_range. rewrite seq_S, for_each_app. simpl.
  unfold bind, ret.
  destruct (body n _ _) as [st' w']. reflexivity.
Qed.

Lemma for_range_0 (st : St) (w : W) : for_range 0 body st w = (st, w).
Proof. reflexivity. Qed.

(** A list the body extends by one entry per iteration is, after the loop,
    the list of what the iterations emitted, in order. *)
Lemma for_range_trace {A : Type} (track : St -> list A)
    (emitted : nat -> St -> W -> A)
    (Hbody : forall i st w, track (result (body i st) w) = track st ++ [emitted i st w])
    (n : nat) (st : St) (w : W) :
  track (result (for_range n body st) w) =
  track st ++ map (fun i => emitted i (result (for_range i body st) w)
                                      (world_after (for_range i body st) w))
                  (seq 0 n).
Proof.
  induction n as [|n IH].
  - simpl. unfold result. rewrite for_range_0. simpl. now rewrite app_nil_r.
  - unfold result at 1. rewrite for_range_S. fold (result (body n (result (for_range n body st) w))
      (world_after (for_range n body st) w)).
    rewrite Hbody, IH, seq_S, map_app, <- app_assoc. reflexivity.
Qed.

(** A counter the body increments once per iteration has advanced by the
    number of iterations. *)
Lemma for_range_count (mu : St -> W -> nat)
    (Hbody : forall i st w,
        mu (result (body i st) w) (world_after (body i st) w) = S (mu st w))
    (n : nat) (st : St) (w : W) :
  mu (result (for_range n body st) w) (world_after (for_range n body st) w) = mu st w + n.
Proof.
  induction n as [|n IH].
  - unfold result, world_after. rewrite for_range_0. simpl. lia.
  - unfold result, world_after. rewrite for_range_S.
    fold (result (body n (result (for_range n body st) w)) (world_after (for_range n body st) w)).
    fold (world_after (body n (result (for_range n body st) w)) (world_after (for_range n body st) w)).
    rewrite Hbody, IH. lia.
Qed.

(** When what the body returns does not depend on the world, neither does
    what the loop returns. *)
Lemma for_each_world_independent
    (Hbody : forall i st w1 w2, result (body i st) w1 = result (body i st) w2)
    (l : list nat) (st : St) (w1 w2 : W) :
  result (for_each body l st) w1 = result (for_each body l st) w2.
Proof.
  revert st w1 w2. induction l as [|i l IH]; intros st w1 w2.
  - reflexivity.
  - unfold result in *. simpl. unfold bind.
    specialize (Hbody i st w1 w2).
    destruct (body i st w1) as [s1 u1], (body i st w2) as [s2 u2].
    simpl in Hbody. subst s2. apply IH.
Qed.

End ForRange.

(** ** The gradient-descent step and loop *)

Section GradientDescent.
Context {T : Type} {ST : Scalar T}.
Variable opt : VQE.GradientDescentOptimizer T.

Lemma apply_grad_length (g p : list T) :
  length g = length p -> length (VQE.apply_grad opt g p) = length p.
Proof.
  intros Hlen. unfold VQE.apply_grad.
  rewrite length_map, length_combine, Hlen. apply Nat.min_id.
Qed.

Lemma apply_grad_nth (g p : list T) (i : nat) (d : T) :
  length g = length p -> i < length p ->
  nth i (VQE.apply_grad opt g p) d =
  ssub (nth i p d) (smul (VQE.stepsize opt) (nth i g d)).
Proof.
  unfold VQE.apply_grad. revert p i.
  induction g as [|x g IH]; intros [|y p] i Hlen Hi; simpl in *; try lia.
  destruct i as [|i]; [reflexivity|].
  apply IH; lia.
Qed.

Lemma step_and_cost_unfold {W : Type} (cost_fn : VQE.Objective T W) (p : list T) (w : W) :
  VQE.step_and_cost opt cost_fn p w =
  ((VQE.apply_grad opt (snd (result (cost_fn p) w)) p, fst (result (cost_fn p) w)),
   world_after (cost_fn p) w).
Proof.
  unfold VQE.step_and_cost, bind, ret, result, world_after.
  destruct (cost_fn p w) as [[c g] w']. reflexivity.
Qed.

Lemma step_and_cost_result {W : Type} (cost_fn : VQE.Objective T W) (p : list T) (w : W) :
  result (VQE.step_and_cost opt cost_fn p) w =
  (VQE.apply_grad opt (snd (result (cost_fn p) w)) p, fst (result (cost_fn p) w)).
Proof. unfold result at 1. now rewrite step_and_cost_unfold. Qed.

Lemma loop_body_unfold {W : Type} (cost_fn : VQE.Objective T W) (i : nat) (v : VQE.vars T) (w : W) :
  VQE.loop_body opt cost_fn i v w =
  (let c := fst (result (cost_fn (VQE.params v)) w) in
   {| VQE.params := VQE.apply_grad opt (snd (result (cost_fn (VQE.params v)) w)) (VQE.params v);
      VQE.energy_track := VQE.energy_track v ++ [c];
      VQE.stdout := if i mod 10 =? 0 then VQE.stdout v ++ [(i, c)] else VQE.stdout v |},
   world_after (cost_fn (VQE.params v)) w).
Proof.
  unfold VQE.loop_body, bind. rewrite step_and_cost_unfold. reflexivity.
Qed.

(** The recorded costs, iteration by iteration. *)
Lemma run_energy_track {W : Type} (cost_fn : VQE.Objective T W) (steps : nat) (p0 : list T) (w : W) :
  VQE.energy_track (result (VQE.run opt cost_fn steps p0) w) =
  map (fun i => fst (result (cost_fn (VQE.params (result (VQE.run opt cost_fn i p0) w)))
                            (world_after (VQE.run opt cost_fn i p0) w)))
      (seq 0 steps).
Proof.
  unfold VQE.run.
  rewrite (for_range_trace (VQE.loop_body opt cost_fn) (@VQE.energy_track T)
             (fun _ v u => fst (result (cost_fn (VQE.params v)) u))).
  - reflexivity.
  - intros i v u. unfold result at 1. rewrite loop_body_unfold. reflexivity.
Qed.

Lemma run_length {W : Type} (cost_fn : VQE.Objective T W) (steps : nat) (p0 : list T) (w : W) :
  length (VQE.energy_track (result (VQE.run opt cost_fn steps p0) w)) = steps.
Proof. rewrite run_energy_track, length_map. apply length_seq. Qed.

Lemma counted_unfold {W A : Type} (m : Eval W A) (w : W) (c : nat) :
  counted m (w, c) = (result m w, (world_after m w, S c)).
Proof.
  unfold counted, result, world_after. simpl. destruct (m w). reflexivity.
Qed.

Lemma counted_world_after {W A : Type} (m : Eval W A) (w : W) (c : nat) :
  world_after (counted m) (w, c) = (world_after m w, S c).
Proof. unfold world_after at 1. now rewrite counted_unfold. Qed.

Lemma run_evaluations {W : Type} (cost_fn : VQE.Objective T W) (steps : nat) (p0 : list T)
    (w : W) (c : nat) :
  snd (world_after (VQE.run opt (fun p => counted (cost_fn p)) steps p0) (w, c)) = c + steps.
Proof.
  unfold VQE.run.
  apply (for_range_count (VQE.loop_body opt (fun p => counted (cost_fn p)))
           (fun _ u => snd u)).
  intros i v [u k]. unfold world_after at 1. rewrite loop_body_unfold.
  unfold world_after. simpl. rewrite counted_unfold. reflexivity.
Qed.

End GradientDescent.

(** ** The optax step and loop *)

Section Optax.
Context {T : Type} {ST : Scalar T}.
Variables Params Grads Updates OptState : Type.
Variable circuit : Params -> StateLearning.State T.
Variable optimizer_update : Grads -> OptState -> Updates * OptState.
Variable apply_updates : Params -> Updates -> Params.

Lemma train_step_unfold {W : Type}
    (value_and_grad : (Params -> StateLearning.State T -> T) -> Params -> StateLearning.State T -> Eval W (T * Grads))
    (p : Params) (s : OptState) (t : StateLearning.State T) (w : W) :
  StateLearning.train_step circuit value_and_grad optimizer_update apply_updates p s t w =
  (let lg := result (value_and_grad (StateLearning.loss_fn circuit) p t) w in
   let us := optimizer_update (snd lg) s in
   (apply_updates p (fst us), snd us, fst lg),
   world_after (value_and_grad (StateLearning.loss_fn circuit) p t) w).
Proof.
  unfold StateLearning.train_step, bind, ret, result, world_after.
  destruct (value_and_grad (StateLearning.loss_fn circuit) p t w) as [[l g] w']. simpl.
  destruct (optimizer_update g s) as [u s']. reflexivity.
Qed.

Lemma jax_loop_body_unfold {W : Type}
    (value_and_grad : (Params -> StateLearning.State T -> T) -> Params -> StateLearning.State T -> Eval W (T * Grads))
    (t : StateLearning.State T) (i : nat) (v : StateLearning.vars T Params OptState) (w : W) :
  StateLearning.loop_body circuit value_and_grad optimizer_update apply_updates t i v w =
  (let lg := result (value_and_grad (StateLearning.loss_fn circuit) (StateLearning.params v) t) w in
   let us := optimizer_update (snd lg) (StateLearning.opt_state v) in
   {| StateLearning.params := apply_updates (StateLearning.params v) (fst us);
      StateLearning.opt_state := snd us;
      StateLearning.loss_history := StateLearning.loss_history v ++ [fst lg];
      StateLearning.stdout :=
        if i mod 10 =? 0 then StateLearning.stdout v ++ [(i, fst lg)]
        else StateLearning.stdout v |},
   world_after (value_and_grad (StateLearning.loss_fn circuit) (StateLearning.params v) t) w).
Proof.
  unfold StateLearning.loop_body, bind. rewrite train_step_unfold. reflexivity.
Qed.

(** The recorded losses, iteration by iteration. *)
Lemma run_loss_history {W : Type}
    (value_and_grad : (Params -> StateLearning.State T -> T) -> Params -> StateLearning.State T -> Eval W (T * Grads))
    (num_steps : nat) (p0 : Params) (s0 : OptState) (t : StateLearning.State T) (w : W) :
  let run := fun n =>
    StateLearning.run circuit value_and_grad optimizer_update apply_updates n p0 s0 t in
  StateLearning.loss_history (result (run num_steps) w) =
  map (fun i => fst (result (value_and_grad (StateLearning.loss_fn circuit)
                               (StateLearning.params (result (run i) w)) t)
                            (world_after (run i) w)))
      (seq 0 num_steps).
Proof.
  intros run. unfold run, StateLearning.run.
  rewrite (for_range_trace
             (StateLearning.loop_body circuit value_and_grad optimizer_update apply_updates t)
             (@StateLearning.loss_history T Params OptState)
             (fun _ v u => fst (result (value_and_grad (StateLearning.loss_fn circuit) (StateLearning.params v) t) u))).
  - reflexivity.
  - intros i v u. unfold result at 1. rewrite jax_loop_body_unfold. reflexivity.
Qed.

Lemma jax_run_evaluations {W : Type}
    (value_and_grad : (Params -> StateLearning.State T -> T) -> Params -> StateLearning.State T -> Eval W (T * Grads))
    (num_steps : nat) (p0 : Params) (s0 : OptState) (t : StateLearning.State T) (w : W) (c : nat) :
  snd (world_after
         (StateLearning.run circuit (fun f p t => counted (value_and_grad f p t))
            optimizer_update apply_updates num_steps p0 s0 t) (w, c)) = c + num_steps.
Proof.
  unfold StateLearning.run.
  apply (for_range_count
           (StateLearning.loop_body circuit (fun f p t => counted (value_and_grad f p t))
              optimizer_update apply_updates t)
           (fun _ u => snd u)).
  intros i v [u k]. unfold world_after at 1. rewrite jax_loop_body_unfold.
  unfold world_after. simpl. rewrite counted_unfold. reflexivity.
Qed.

End Optax.

(** ** Properties of the optimisation driver *)

Section Driver.
Context {T : Type} {ST : Scalar T} {W : Type}.
Variable opt : VQE.GradientDescentOptimizer T.
Variable cost_fn : VQE.Objective T W.

(** C1: one steepest-descent step replaces every coordinate [i] of the
    parameter vector by [parameters[i] - step_size * gradient[i]], where the
    gradient is the one the objective returned for the vector passed in: the
    new vector has the old length, each coordinate is computed from the old
    coordinate and the gradient coordinate of the same index, and the only
    point the objective is evaluated at during the step is the pre-update
    vector. *)
Theorem step_is_simultaneous_steepest_descent
    (p : list T) (w : W) (log : list (list T)) :
  length (snd (result (cost_fn p) w)) = length p ->
  length (fst (result (VQE.step_and_cost opt cost_fn p) w)) = length p /\
  (forall i d, i < length p ->
     nth i (fst (result (VQE.step_and_cost opt cost_fn p) w)) d =
     ssub (nth i p d)
          (smul (VQE.stepsize opt) (nth i (snd (result (cost_fn p) w)) d))) /\
  snd (world_after (VQE.step_and_cost opt (logged cost_fn) p) (w, log)) = log ++ [p].
Proof.
  intros Hlen. rewrite step_and_cost_result. simpl.
  split; [now apply apply_grad_length|].
  split; [intros i d Hi; now apply apply_grad_nth|].
  unfold world_after. rewrite step_and_cost_unfold. simpl.
  unfold world_after, logged. simpl. destruct (cost_fn p w). reflexivity.
Qed.

(** C6: when what the objective returns does not depend on its hidden
    world (a deterministic objective), two runs of the loop with the same
    optimizer, initial parameters and iteration count return the same final
    parameters, the same trace and the same printed lines, whatever worlds
    they start in. *)
Theorem run_is_deterministic
    (Hdet : forall p w1 w2, result (cost_fn p) w1 = result (cost_fn p) w2)
    (steps : nat) (p0 : list T) (w1 w2 : W) :
  result (VQE.run opt cost_fn steps p0) w1 = result (VQE.run opt cost_fn steps p0) w2.
Proof.
  unfold VQE.run, for_range. apply for_each_world_independent.
  intros i v u1 u2. unfold result. rewrite !loop_body_unfold. simpl.
  now rewrite (Hdet (VQE.params v) u1 u2).
Qed.

Section WithOptax.
Variables Params Grads Updates OptState : Type.
Variable circuit : Params -> StateLearning.State T.
Variable value_and_grad : (Params -> StateLearning.State T -> T) -> Params -> StateLearning.State T -> Eval W (T * Grads).
Variable optimizer_update : Grads -> OptState -> Updates * OptState.
Variable apply_updates : Params -> Updates -> Params.

(** C2: in both loops one iteration performs exactly one objective
    evaluation and appends exactly one entry to the trace, and a run of [N]
    iterations (the loops have no early exit) performs [N] evaluations and
    ends with a trace of length exactly [N]. *)
Theorem run_records_one_cost_per_evaluation :
  (forall i v w c,
     let out := VQE.loop_body opt (fun p => counted (cost_fn p)) i v (w, c) in
     snd (snd out) = S c /\
     length (VQE.energy_track (fst out)) = S (length (VQE.energy_track v))) /\
  (forall N p0 w,
     let m := VQE.run opt (fun p => counted (cost_fn p)) N p0 in
     snd (world_after m (w, 0)) = N /\
     length (VQE.energy_track (result m (w, 0))) = N) /\
  (forall t i v w c,
     let out := StateLearning.loop_body circuit (fun f p t => counted (value_and_grad f p t))
                  optimizer_update apply_updates t i v (w, c) in
     snd (snd out) = S c /\
     length (StateLearning.loss_history (fst out)) =
     S (length (StateLearning.loss_history v))) /\
  (forall N p0 s0 t w,
     let m := StateLearning.run circuit (fun f p t => counted (value_and_grad f p t))
                optimizer_update apply_updates N p0 s0 t in
     snd (world_after m (w, 0)) = N /\
     length (StateLearning.loss_history (result m (w, 0))) = N).
Proof.
  repeat split.
  - rewrite loop_body_unfold. simpl. now rewrite counted_world_after.
  - rewrite loop_body_unfold. simpl. rewrite length_app. simpl. lia.
  - apply (run_evaluations opt cost_fn N p0 w 0).
  - apply run_length.
  - rewrite jax_loop_body_unfold. simpl. now rewrite counted_world_after.
  - rewrite jax_loop_body_unfold. simpl. rewrite length_app. simpl. lia.
  - apply (jax_run_evaluations circuit optimizer_update apply_updates
             value_and_grad N p0 s0 t w 0).
  - rewrite run_loss_history, length_map. apply length_seq.
Qed.

(** C3: the cost a step returns is the objective's value at the parameter
    vector passed in, before the update; the loop appends that cost, so the
    entry of the trace for iteration [i] is the cost at the parameters the
    loop held at the start of iteration [i].  The same holds of
    [train_step] and [loss_history]. *)
Theorem recorded_cost_is_cost_before_update :
  (forall p w,
     snd (result (VQE.step_and_cost opt cost_fn p) w) = fst (result (cost_fn p) w)) /\
  (forall steps p0 w,
     VQE.energy_track (result (VQE.run opt cost_fn steps p0) w) =
     map (fun i =>
            fst (result (cost_fn (VQE.params (result (VQE.run opt cost_fn i p0) w)))
                        (world_after (VQE.run opt cost_fn i p0) w)))
         (seq 0 steps)) /\
  (forall p s t w,
     snd (result (StateLearning.train_step circuit value_and_grad optimizer_update
                    apply_updates p s t) w) =
     fst (result (value_and_grad (StateLearning.loss_fn circuit) p t) w)) /\
  (forall num_steps p0 s0 t w,
     let run := fun n =>
       StateLearning.run circuit value_and_grad optimizer_update apply_updates n p0 s0 t in
     StateLearning.loss_history (result (run num_steps) w) =
     map (fun i =>
            fst (result (value_and_grad (StateLearning.loss_fn circuit) (StateLearning.params (result (run i) w)) t)
                        (world_after (run i) w)))
         (seq 0 num_steps)).
Proof.
  repeat split.
  - intros p w. now rewrite step_and_cost_result.
  - intros. apply run_energy_track.
  - intros p s t w. unfold result at 1. now rewrite train_step_unfold.
  - intros. apply run_loss_history.
Qed.

End WithOptax.
End Driver.

(** ** The loop, iteration by iteration *)

Section Iterations.
Context {T : Type} {ST : Scalar T} {W : Type}.
Variable opt : VQE.GradientDescentOptimizer T.
Variable cost_fn : VQE.Objective T W.
Variable p0 : list T.
Variable w : W.

Lemma energy_track_cost_at (steps : nat) :
  VQE.energy_track (result (VQE.run opt cost_fn steps p0) w) = map (VQE.cost_at opt cost_fn p0 w) (seq 0 steps).
Proof. apply run_energy_track. Qed.

Lemma params_after_iteration (k : nat) :
  VQE.params (result (VQE.run opt cost_fn (S k) p0) w) =
  VQE.apply_grad opt (VQE.grad_at opt cost_fn p0 w k) (VQE.params (result (VQE.run opt cost_fn k p0) w)).
Proof.
  unfold VQE.run at 1, result at 1. rewrite for_range_S, loop_body_unfold. reflexivity.
Qed.

End Iterations.

(** ** The step of the spec's handle *)

Section CheckedStep.
Context {W : Type}.
Variable handle : VariationalOptimizer.OptimizerHandle.
Variable objective : VQE.Objective float W.
Variable w : W.

Abbreviation evaluation :=
  (result (objective (VariationalOptimizer.parameters handle)) w).

Lemma step_unfold :
  VariationalOptimizer.lifecycle handle <> VariationalOptimizer.errored ->
  VariationalOptimizer.step handle objective w =
  (if negb (length (snd evaluation) =? length (VariationalOptimizer.parameters handle))
   then (inl VariationalOptimizer.InvalidGradientShape,
         VariationalOptimizer.mark_errored handle)
   else if VariationalOptimizer.non_finite (fst evaluation) ||
           existsb VariationalOptimizer.non_finite (snd evaluation)
   then (inl VariationalOptimizer.NonFiniteValue,
         VariationalOptimizer.mark_errored handle)
   else
     let updated :=
       VQE.apply_grad {| VQE.stepsize := VariationalOptimizer.step_size handle |}
         (snd evaluation) (VariationalOptimizer.parameters handle) in
     (inr (updated, fst evaluation),
      {| VariationalOptimizer.parameters := updated;
         VariationalOptimizer.step_size := VariationalOptimizer.step_size handle;
         VariationalOptimizer.trace := VariationalOptimizer.trace handle ++ [fst evaluation];
         VariationalOptimizer.lifecycle := VariationalOptimizer.running |}),
   world_after (objective (VariationalOptimizer.parameters handle)) w).
Proof.
  intros Hlife. unfold VariationalOptimizer.step.
  destruct (VariationalOptimizer.lifecycle handle); [| | contradiction];
    unfold result, world_after, bind, ret;
    destruct (objective (VariationalOptimizer.parameters handle) w) as [[cost gradient] w'];
    cbn [fst snd];
    destruct (length gradient =? length (VariationalOptimizer.parameters handle));
    cbn [negb]; try reflexivity;
    destruct (VariationalOptimizer.non_finite cost ||
              existsb VariationalOptimizer.non_finite gradient); reflexivity.
Qed.

Lemma step_on_errored (h : VariationalOptimizer.OptimizerHandle)
    (objective' : VQE.Objective float W) (w' : W) :
  VariationalOptimizer.lifecycle h = VariationalOptimizer.errored ->
  VariationalOptimizer.step h objective' w' =
  ((inl VariationalOptimizer.OptimizerErrored, h), w').
Proof.
  intros Hlife. unfold VariationalOptimizer.step. now rewrite Hlife.
Qed.

Lemma non_finite_iff (x : float) :
  VariationalOptimizer.non_finite x = true <->
  PrimFloat.is_nan x = true \/ PrimFloat.is_infinity x = true.
Proof. unfold VariationalOptimizer.non_finite. apply orb_true_iff. Qed.

(** When nothing is refused, the step of the handle is the step the
    notebook's loop takes: the same new vector and cost, the same single
    evaluation, and the cost appended to the trace. *)
Lemma step_accepts
    (Hlife : VariationalOptimizer.lifecycle handle <> VariationalOptimizer.errored)
    (Hshape : length (snd evaluation) = length (VariationalOptimizer.parameters handle))
    (Hfinite : VariationalOptimizer.non_finite (fst evaluation) ||
               existsb VariationalOptimizer.non_finite (snd evaluation) = false) :
  let opt := {| VQE.stepsize := VariationalOptimizer.step_size handle |} in
  let taken := VQE.step_and_cost opt objective (VariationalOptimizer.parameters handle) in
  fst (result (VariationalOptimizer.step handle objective) w) = inr (result taken w) /\
  VariationalOptimizer.parameters (snd (result (VariationalOptimizer.step handle objective) w)) =
    fst (result taken w) /\
  VariationalOptimizer.trace (snd (result (VariationalOptimizer.step handle objective) w)) =
    VariationalOptimizer.trace handle ++ [snd (result taken w)] /\
  world_after (VariationalOptimizer.step handle objective) w = world_after taken w.
Proof.
  cbv zeta. pose proof (step_unfold Hlife) as Hs.
  rewrite Hshape, Nat.eqb_refl, Hfinite in Hs. cbn [negb] in Hs.
  unfold result at 1 3 5, world_after at 1. rewrite Hs.
  rewrite (step_and_cost_result (T := float)). unfold world_after.
  rewrite (step_and_cost_unfold (T := float)).
  cbn [fst snd VariationalOptimizer.parameters VariationalOptimizer.trace]. auto.
Qed.

(** C4: on a handle that is not errored, [step] fails with
    [InvalidGradientShape] when the gradient the objective returns has not
    the length of the current parameter vector, and with [NonFiniteValue]
    when (the lengths agreeing) the returned cost or a component of the
    gradient is NaN or infinite.  Whatever the error, the handle keeps its
    parameter vector and its trace, and every later [step] on it fails with
    [OptimizerErrored] without evaluating the objective and leaves the
    handle as it is; a handle that [initialize] returns is a fresh one, on
    which [step] does not fail so. *)
Theorem step_refuses_wrong_shapes_and_non_finite_values :
  VariationalOptimizer.lifecycle handle <> VariationalOptimizer.errored ->
  let cost := fst evaluation in
  let gradient := snd evaluation in
  let outcome := fst (result (VariationalOptimizer.step handle objective) w) in
  let handle' := snd (result (VariationalOptimizer.step handle objective) w) in
  (length gradient <> length (VariationalOptimizer.parameters handle) ->
     outcome = inl VariationalOptimizer.InvalidGradientShape) /\
  (length gradient = length (VariationalOptimizer.parameters handle) ->
     PrimFloat.is_nan cost = true \/ PrimFloat.is_infinity cost = true \/
     (exists g, In g gradient /\
                (PrimFloat.is_nan g = true \/ PrimFloat.is_infinity g = true)) ->
     outcome = inl VariationalOptimizer.NonFiniteValue) /\
  (forall e, outcome = inl e ->
     VariationalOptimizer.parameters handle' = VariationalOptimizer.parameters handle /\
     VariationalOptimizer.trace handle' = VariationalOptimizer.trace handle /\
     forall (objective' : VQE.Objective float W) (w' : W),
       VariationalOptimizer.step handle' objective' w' =
       ((inl VariationalOptimizer.OptimizerErrored, handle'), w')) /\
  (forall p eta n fresh,
     VariationalOptimizer.initialize p eta n = inr fresh ->
     VariationalOptimizer.parameters fresh = p /\
     VariationalOptimizer.trace fresh = [] /\
     forall (objective' : VQE.Objective float W) (w' : W),
       fst (result (VariationalOptimizer.step fresh objective') w') <>
       inl VariationalOptimizer.OptimizerErrored).
Proof.
  intros Hlife. cbv zeta.
  assert (Hfresh : forall p eta n fresh,
            VariationalOptimizer.initialize p eta n = inr fresh ->
            VariationalOptimizer.parameters fresh = p /\
            VariationalOptimizer.trace fresh = [] /\
            forall (objective' : VQE.Objective float W) (w' : W),
              fst (result (VariationalOptimizer.step fresh objective') w') <>
              inl VariationalOptimizer.OptimizerErrored).
  { intros p eta n fresh Hinit.
    unfold VariationalOptimizer.initialize in Hinit.
    destruct p as [|x p]; [discriminate|].
    destruct (_ && _); [|discriminate].
    injection Hinit as <-. cbn [VariationalOptimizer.parameters VariationalOptimizer.trace].
    split; [reflexivity|]. split; [reflexivity|].
    intros objective' w'. unfold result, VariationalOptimizer.step, bind, ret.
    cbn [VariationalOptimizer.lifecycle VariationalOptimizer.parameters].
    destruct (objective' (x :: p) w') as [[c g] w'']. cbn [fst snd].
    destruct (length g =? length (x :: p)); cbn [negb fst]; [|discriminate].
    destruct (VariationalOptimizer.non_finite c || existsb VariationalOptimizer.non_finite g);
      discriminate. }
  change (result (VariationalOptimizer.step handle objective) w)
    with (fst (VariationalOptimizer.step handle objective w)).
  rewrite (step_unfold Hlife).
  destruct (length (snd evaluation) =? length (VariationalOptimizer.parameters handle)) eqn:Es;
    cbn [negb fst snd].
  - apply Nat.eqb_eq in Es.
    destruct (VariationalOptimizer.non_finite (fst evaluation) ||
              existsb VariationalOptimizer.non_finite (snd evaluation)) eqn:En;
      cbn [fst snd].
    + split; [intros Hne; contradiction|].
      split; [reflexivity|].
      split; [|exact Hfresh].
      intros e _. split; [reflexivity|]. split; [reflexivity|].
      intros objective' w'. now apply step_on_errored.
    + split; [intros Hne; contradiction|].
      split; [|split; [intros e He; discriminate He | exact Hfresh]].
      intros _ Hbad. apply orb_false_iff in En. destruct En as [Ec Eg].
      destruct Hbad as [Hc|[Hc|(g & Hg & Hbad)]].
      * assert (Hn : VariationalOptimizer.non_finite (fst evaluation) = true)
          by (apply non_finite_iff; now left).
        rewrite Hn in Ec. discriminate Ec.
      * assert (Hn : VariationalOptimizer.non_finite (fst evaluation) = true)
          by (apply non_finite_iff; now right).
        rewrite Hn in Ec. discriminate Ec.
      * assert (Hn : existsb VariationalOptimizer.non_finite (snd evaluation) = true).
        { apply existsb_exists. exists g. split; [exact Hg|]. now apply non_finite_iff. }
        rewrite Hn in Eg. discriminate Eg.
  - apply Nat.eqb_neq in Es.
    split; [reflexivity|].
    split; [intros Heq; contradiction|].
    split; [|exact Hfresh].
    intros e _. split; [reflexivity|]. split; [reflexivity|].
    intros objective' w'. now apply step_on_errored.
Qed.

End CheckedStep.

(** ** The loops on binary64 floats *)

(** The first step of the notebook's optimizer on the quadratic test
    objective with target [[1; -1]], from [[0; 0]]: the gradient is
    [[-2; 2]] and both coordinates move by [0.2 * 2]. *)
Example quadratic_first_step :
  result (VQE.step_and_cost notebook_opt
            (pure_objective (quadratic [1; -1]%float)) [0; 0]%float) tt =
  ([0.4; -0.4]%float, 2%float).
Proof. vm_compute. reflexivity. Qed.

(** Eight iterations on the countdown objective. *)
Example countdown_trace :
  VQE.energy_track (result (VQE.run unit_step_opt countdown_objective 8 [5%float]) tt) =
  [5; 4; 3; 2; 1; 0; 0; 0]%float.
Proof. vm_compute. reflexivity. Qed.

Lemma step_is_simultaneous_steepest_descent_witness :
  let cost_fn : VQE.Objective float unit := pure_objective (quadratic [1; -1]%float) in
  let p := [0; 0]%float in
  length (fst (result (VQE.step_and_cost notebook_opt cost_fn p) tt)) = length p /\
  (forall i d, i < length p ->
     nth i (fst (result (VQE.step_and_cost notebook_opt cost_fn p) tt)) d =
     ssub (nth i p d)
          (smul (VQE.stepsize notebook_opt) (nth i (snd (result (cost_fn p) tt)) d))) /\
  snd (world_after (VQE.step_and_cost notebook_opt (logged cost_fn) p) (tt, [])) = [] ++ [p].
Proof.
  apply (@step_is_simultaneous_steepest_descent float _ unit notebook_opt
           (pure_objective (quadratic [1; -1]%float)) [0; 0]%float tt []).
  reflexivity.
Defined.

(** Two runs on the countdown objective whose hidden call counters start
    at 0 and at 7. *)
Lemma run_is_deterministic_witness :
  result (VQE.run unit_step_opt (fun p => counted (countdown_objective p)) 8 [5%float]) (tt, 0) =
  result (VQE.run unit_step_opt (fun p => counted (countdown_objective p)) 8 [5%float]) (tt, 7).
Proof.
  apply (@run_is_deterministic float _ (unit * nat) unit_step_opt
           (fun p => counted (countdown_objective p))).
  intros p [[] c1] [[] c2]. reflexivity.
Defined.

(** The notebook's parameters in a fresh handle. *)
Example initialize_notebook_handle :
  VariationalOptimizer.initialize notebook_params 0.2%float 50 =
  inr {| VariationalOptimizer.parameters := notebook_params;
         VariationalOptimizer.step_size := 0.2%float;
         VariationalOptimizer.trace := [];
         VariationalOptimizer.lifecycle := VariationalOptimizer.not_started |}.
Proof. reflexivity. Qed.

(** An objective that returns NaN is refused with [NonFiniteValue], one
    whose gradient is too short with [InvalidGradientShape]. *)
Lemma step_refuses_wrong_shapes_and_non_finite_values_witness :
  let handle :=
    {| VariationalOptimizer.parameters := notebook_params;
       VariationalOptimizer.step_size := 0.2%float;
       VariationalOptimizer.trace := [];
       VariationalOptimizer.lifecycle := VariationalOptimizer.not_started |} in
  fst (result (VariationalOptimizer.step handle nan_objective) tt) =
    inl VariationalOptimizer.NonFiniteValue /\
  fst (result (VariationalOptimizer.step handle short_gradient_objective) tt) =
    inl VariationalOptimizer.InvalidGradientShape.
Proof.
  cbv zeta. split.
  - apply (@step_refuses_wrong_shapes_and_non_finite_values unit _ nan_objective tt).
    + discriminate.
    + reflexivity.
    + left. reflexivity.
  - apply (@step_refuses_wrong_shapes_and_non_finite_values unit _ short_gradient_objective tt).
    + discriminate.
    + discriminate.
Defined.

(** Three steps on the handle of the notebook's parameters with the
    objective that returns NaN: the first fails with [NonFiniteValue], the
    second and the third with [OptimizerErrored], and the parameters are
    those the handle began with. *)
Example steps_after_a_refused_value :
  let handle0 :=
    {| VariationalOptimizer.parameters := notebook_params;
       VariationalOptimizer.step_size := 0.2%float;
       VariationalOptimizer.trace := [];
       VariationalOptimizer.lifecycle := VariationalOptimizer.not_started |} in
  let '(r1, handle1) := result (VariationalOptimizer.step handle0 nan_objective) tt in
  let '(r2, handle2) := result (VariationalOptimizer.step handle1 nan_objective) tt in
  let '(r3, handle3) := result (VariationalOptimizer.step handle2 nan_objective) tt in
  (r1, r2, r3) = (inl VariationalOptimizer.NonFiniteValue,
                  inl VariationalOptimizer.OptimizerErrored,
                  inl VariationalOptimizer.OptimizerErrored) /\
  VariationalOptimizer.parameters handle3 = notebook_params /\
  VariationalOptimizer.trace handle3 = [].
Proof. vm_compute. repeat split. Qed.

(** ** Gradient descent on the quadratic objective, in exact arithmetic *)

Section QuadraticDescent.
Open Scope R_scope.
Variable eta : R.
Variable target : list R.

Abbreviation q := (contraction eta).
Abbreviation opt := (VQE.Build_GradientDescentOptimizer eta).

Lemma fold_left_Rplus_acc {A : Type} (f : A -> R) (l : list A) (a : R) :
  fold_left (fun acc x => acc + f x) l a = a + fold_left (fun acc x => acc + f x) l 0.
Proof.
  revert a. induction l as [|x l IH]; intros a; simpl.
  - lra.
  - rewrite IH, (IH (0 + _)). lra.
Qed.

Lemma quadratic_cost_cons (x y : R) (p t : list R) :
  quadratic_cost (y :: t) (x :: p) = (x - y) * (x - y) + quadratic_cost t p.
Proof.
  unfold quadratic_cost. on_reals. simpl.
  rewrite (fold_left_Rplus_acc (fun pt => (fst pt - snd pt) * (fst pt - snd pt))). lra.
Qed.

Lemma quadratic_cost_nonneg (t p : list R) : 0 <= quadratic_cost t p.
Proof.
  revert t. induction p as [|x p IH]; intros [|y t]; try (unfold quadratic_cost; simpl; on_reals; lra).
  rewrite quadratic_cost_cons. specialize (IH t).
  pose proof (Rle_0_sqr (x - y)) as Hsq. unfold Rsqr in Hsq. lra.
Qed.

(** One step scales every distance to the target by [q], hence the cost by
    [q * q]. *)
Lemma quadratic_step_cost (t p : list R) :
  quadratic_cost t (VQE.apply_grad opt (quadratic_grad t p) p) = q * q * quadratic_cost t p.
Proof.
  revert t. induction p as [|x p IH]; intros [|y t];
    try (unfold quadratic_cost; simpl; on_reals; lra).
  change (VQE.apply_grad opt (quadratic_grad (y :: t) (x :: p)) (x :: p))
    with ((x - eta * ((1 + 1) * (x - y))) :: VQE.apply_grad opt (quadratic_grad t p) p).
  rewrite !quadratic_cost_cons, IH. unfold contraction. ring.
Qed.

Lemma quadratic_step_length (t p : list R) :
  length p = length t ->
  length (VQE.apply_grad opt (quadratic_grad t p) p) = length t.
Proof.
  intros Hlen. rewrite apply_grad_length.
  - exact Hlen.
  - unfold quadratic_grad. rewrite length_map, length_combine, Hlen. apply Nat.min_id.
Qed.

(** Every coordinate is no farther from its target than the cost allows. *)
Lemma quadratic_cost_bounds_coordinates (eps : R) (t p : list R) :
  length p = length t -> 0 < eps -> quadratic_cost t p < eps * eps ->
  Forall2 (fun x y => Rabs (x - y) < eps) p t.
Proof.
  revert t. induction p as [|x p IH]; intros [|y t] Hlen Heps Hc; simpl in Hlen; try lia.
  - constructor.
  - rewrite quadratic_cost_cons in Hc.
    pose proof (quadratic_cost_nonneg t p) as Hnn.
    pose proof (Rle_0_sqr (x - y)) as Hsq. unfold Rsqr in Hsq.
    constructor.
    + rewrite <- (Rabs_pos_eq eps) by lra.
      apply Rsqr_lt_abs_0. unfold Rsqr. lra.
    + apply IH; [lia | assumption | lra].
Qed.

Section Run.
Context {W : Type}.
Variable p0 : list R.
Variable w : W.
Abbreviation obj := (quadratic_objective (W := W) target).
Abbreviation params_after := (VQE.params_at opt obj p0 w).

Lemma quadratic_cost_at (k : nat) :
  VQE.cost_at opt obj p0 w k = quadratic_cost target (params_after k).
Proof. reflexivity. Qed.

Lemma quadratic_params_step (k : nat) :
  params_after (S k) =
  VQE.apply_grad opt (quadratic_grad target (params_after k)) (params_after k).
Proof. unfold VQE.params_at. rewrite params_after_iteration. reflexivity. Qed.

Lemma quadratic_cost_step (k : nat) :
  quadratic_cost target (params_after (S k)) = q * q * quadratic_cost target (params_after k).
Proof. rewrite quadratic_params_step. apply quadratic_step_cost. Qed.

Lemma quadratic_cost_after (n : nat) :
  quadratic_cost target (params_after n) = (q * q) ^ n * quadratic_cost target p0.
Proof.
  induction n as [|n IH].
  - simpl. unfold VQE.params_at, VQE.run, result. rewrite for_range_0. simpl. lra.
  - rewrite quadratic_cost_step, IH. simpl. ring.
Qed.

Lemma quadratic_params_length (n : nat) :
  length p0 = length target -> length (params_after n) = length target.
Proof.
  intros Hlen. induction n as [|n IH].
  - unfold VQE.params_at, VQE.run, result. rewrite for_range_0. exact Hlen.
  - rewrite quadratic_params_step. now apply quadratic_step_length.
Qed.

Lemma contraction_square_lt_1 : 0 < eta < 1 -> 0 <= q * q < 1.
Proof.
  intros [H0 H1].
  assert (Hpos : 0 < eta * (1 - eta)) by (apply Rmult_lt_0_compat; lra).
  pose proof (Rle_0_sqr q) as Hsq. unfold Rsqr in Hsq.
  split; [exact Hsq|].
  replace (q * q) with (1 - 4 * (eta * (1 - eta))) by (unfold contraction; ring).
  lra.
Qed.

(** The descent as it would run in exact real arithmetic, which no
    notebook computes in: on the quadratic objective
    [f(p) = sum_i (p_i - target_i)^2] with gradient [2 (p - target)], a step
    size in [(0, 1)] records the costs [(1 - 2 eta)^(2k) f(p0)]; each
    recorded cost that is not yet zero is followed by a strictly smaller
    one, and for every [eps > 0] there is an iteration count from which on
    the cost at the final parameters is below [eps] and every final
    parameter is within [eps] of its target.  On floats the run departs
    from this: see [quadratic_descent_on_floats]. *)
Lemma quadratic_descent_in_exact_arithmetic :
  length p0 = length target ->
  0 < eta < 1 ->
  (forall steps,
     VQE.energy_track (result (VQE.run opt obj steps p0) w) =
     map (fun k => (q * q) ^ k * quadratic_cost target p0) (seq 0 steps)) /\
  (forall k,
     0 < VQE.cost_at opt obj p0 w k ->
     VQE.cost_at opt obj p0 w (S k) < VQE.cost_at opt obj p0 w k) /\
  (forall eps, 0 < eps ->
     exists N, forall n, (N <= n)%nat ->
       quadratic_cost target (params_after n) < eps /\
       Forall2 (fun x t => Rabs (x - t) < eps) (params_after n) target).
Proof.
  intros Hlen Heta.
  destruct (contraction_square_lt_1 Heta) as [Hq0 Hq1].
  split; [|split].
  - intros steps. rewrite energy_track_cost_at. apply map_ext.
    intros k. rewrite quadratic_cost_at. apply quadratic_cost_after.
  - intros k Hk. rewrite !quadratic_cost_at in *. rewrite quadratic_cost_step.
    set (c := quadratic_cost target (params_after k)) in *.
    assert (0 < (1 - q * q) * c) by (apply Rmult_lt_0_compat; lra).
    lra.
  - intros eps Heps.
    pose proof (quadratic_cost_nonneg target p0) as Hc0.
    set (c0 := quadratic_cost target p0) in *.
    set (m := Rmin eps (eps * eps)).
    assert (Hm : 0 < m).
    { unfold m. apply Rmin_glb_lt; [lra|]. apply Rmult_lt_0_compat; lra. }
    assert (Hy : 0 < m / (c0 + 1)).
    { apply Rdiv_lt_0_compat; lra. }
    assert (Hr : Rabs (q * q) < 1) by (rewrite Rabs_pos_eq; lra).
    destruct (pow_lt_1_zero (q * q) Hr (m / (c0 + 1)) Hy) as [N HN].
    exists N. intros n Hn.
    assert (Hcost : quadratic_cost target (params_after n) < m).
    { rewrite quadratic_cost_after. fold c0.
      specialize (HN n Hn).
      assert (Hpow : 0 <= (q * q) ^ n) by (apply pow_le; lra).
      rewrite Rabs_pos_eq in HN by exact Hpow.
      assert (Hle : (q * q) ^ n * c0 <= m / (c0 + 1) * c0).
      { apply Rmult_le_compat_r; lra. }
      assert (Heq : m / (c0 + 1) * (c0 + 1) = m) by (field; lra).
      lra. }
    pose proof (Rmin_l eps (eps * eps)) as Hl.
    pose proof (Rmin_r eps (eps * eps)) as Hr2.
    fold m in Hl, Hr2.
    split; [lra|].
    apply quadratic_cost_bounds_coordinates.
    + now apply quadratic_params_length.
    + exact Heps.
    + lra.
Qed.

End Run.
End QuadraticDescent.

(** The same run on binary64 floats, with the data of the spec's test:
    target [[1; -1]], initial [[0; 0]], step size [0.1].  The recorded
    costs decrease strictly over the first 161 iterations; from iteration
    161 on the parameters no longer move, at one unit in the last place
    from the target, and the cost stays at [9.86e-32], which is not zero.
    After 200 iterations the cost is below [1e-6], as the spec's test
    asks. *)
Lemma quadratic_descent_on_floats :
  let opt := VQE.Build_GradientDescentOptimizer 0.1%float in
  let obj : VQE.Objective float unit := quadratic_objective [1; -1]%float in
  (forall k, k < 161 ->
     PrimFloat.ltb (VQE.cost_at opt obj [0; 0]%float tt (S k))
                   (VQE.cost_at opt obj [0; 0]%float tt k) = true) /\
  (forall n, 161 <= n ->
     VQE.params_at opt obj [0; 0]%float tt n =
       [0.99999999999999978; -0.99999999999999978]%float /\
     VQE.cost_at opt obj [0; 0]%float tt n = 9.8607613152626476e-32%float) /\
  PrimFloat.ltb (VQE.cost_at opt obj [0; 0]%float tt 200) 1e-6%float = true.
Proof.
  cbv zeta.
  set (opt := VQE.Build_GradientDescentOptimizer 0.1%float).
  set (obj := quadratic_objective [1; -1]%float : VQE.Objective float unit).
  assert (Hfixed : forall n, 161 <= n ->
            VQE.params_at opt obj [0; 0]%float tt n =
            [0.99999999999999978; -0.99999999999999978]%float).
  { induction 1 as [|n Hn IH].
    - vm_compute. reflexivity.
    - unfold VQE.params_at in *. rewrite params_after_iteration.
      unfold VQE.grad_at, VQE.params_at. rewrite IH. vm_compute. reflexivity. }
  split; [|split].
  - assert (Hall : forallb (fun k => PrimFloat.ltb (VQE.cost_at opt obj [0; 0]%float tt (S k))
                                       (VQE.cost_at opt obj [0; 0]%float tt k))
                           (seq 0 161) = true) by (vm_compute; reflexivity).
    rewrite forallb_forall in Hall. intros k Hk. apply Hall. apply in_seq. lia.
  - intros n Hn. split; [now apply Hfixed|].
    unfold VQE.cost_at. rewrite (Hfixed n Hn). vm_compute. reflexivity.
  - unfold VQE.cost_at. rewrite (Hfixed 200) by lia. vm_compute. reflexivity.
Qed.

(** ** The best entry of a trace *)

Section BestEntry.
Variable T : Type.
Variable ltb : T -> T -> bool.
Variable trace : list T.

(** [ltb] orders the entries of the trace as [<] orders numbers: it is
    asymmetric, and [>=] (its negation) is transitive.  Floats other than
    NaN are ordered so. *)
Hypothesis ltb_asym :
  forall a b, In a trace -> In b trace -> ltb a b = true -> ltb b a = false.
Hypothesis geb_trans :
  forall a b c, In a trace -> In b trace -> In c trace ->
    ltb a b = false -> ltb b c = false -> ltb a c = false.

Lemma ltb_irrefl (a : T) : In a trace -> ltb a a = false.
Proof.
  intros Ha. destruct (ltb a a) eqn:E; [|reflexivity].
  rewrite (ltb_asym Ha Ha E) in E. discriminate.
Qed.

(** The invariant of the scan: [(bi, bv)] is the earliest minimum of the
    entries read so far. *)
Lemma best_from_earliest_minimum (rest pre : list T) (bi : nat) (bv : T) :
  trace = pre ++ rest ->
  nth_error pre bi = Some bv ->
  (forall x, In x pre -> ltb x bv = false) ->
  (forall j x, j < bi -> nth_error pre j = Some x -> ltb bv x = true) ->
  let r := Trace.best_from ltb (length pre) bi bv rest in
  nth_error trace (fst r) = Some (snd r) /\
  (forall x, In x trace -> ltb x (snd r) = false) /\
  (forall j x, j < fst r -> nth_error trace j = Some x -> ltb (snd r) x = true).
Proof.
  revert pre bi bv. induction rest as [|y rest IH]; intros pre bi bv Htr Hbi Hmin Hfirst.
  - simpl. rewrite app_nil_r in Htr. subst pre. auto.
  - assert (Htr' : trace = (pre ++ [y]) ++ rest) by (now rewrite <- app_assoc).
    assert (Hy : In y trace) by (rewrite Htr; apply in_or_app; right; now left).
    assert (Hpre : forall x, In x pre -> In x trace)
      by (intros x Hx; rewrite Htr; apply in_or_app; now left).
    assert (Hbv : In bv trace) by (apply Hpre; apply (nth_error_In pre bi Hbi)).
    assert (Hlt : bi < length pre) by (apply nth_error_Some; congruence).
    simpl. destruct (ltb y bv) eqn:E.
    + replace (S (length pre)) with (length (pre ++ [y]))
        by (rewrite length_app; simpl; lia).
      apply IH; [exact Htr' | | |].
      * rewrite nth_error_app2, Nat.sub_diag by lia. reflexivity.
      * intros x Hx. apply in_app_or in Hx. destruct Hx as [Hx|[<-|[]]].
        -- apply geb_trans with (b := bv); auto.
        -- now apply ltb_irrefl.
      * intros j x Hj Hx. rewrite nth_error_app1 in Hx by exact Hj.
        assert (Hxin : In x pre) by (apply (nth_error_In pre j Hx)).
        destruct (ltb y x) eqn:E'; [reflexivity|].
        rewrite (geb_trans Hy (Hpre x Hxin) Hbv E' (Hmin x Hxin)) in E. discriminate.
    + replace (S (length pre)) with (length (pre ++ [y]))
        by (rewrite length_app; simpl; lia).
      apply IH; [exact Htr' | | |].
      * rewrite nth_error_app1 by exact Hlt. exact Hbi.
      * intros x Hx. apply in_app_or in Hx. destruct Hx as [Hx|[<-|[]]]; auto.
      * intros j x Hj Hx. rewrite nth_error_app1 in Hx by lia. eauto.
Qed.

(** C8: on a trace with at least one entry, [best] returns a position of
    the trace and the value recorded there; no entry of the trace is
    smaller than that value, so it is the minimum of the recorded values,
    and every entry before the returned position is strictly greater, so
    among equal minima the earliest is returned.  [best] is a function of
    the trace alone: a second call on the same trace returns the same
    pair. *)
Theorem best_is_earliest_minimum :
  trace <> [] ->
  exists i v,
    Trace.best ltb trace = Some (i, v) /\
    nth_error trace i = Some v /\
    (forall x, In x trace -> ltb x v = false) /\
    (forall j x, j < i -> nth_error trace j = Some x -> ltb v x = true) /\
    (forall trace', trace' = trace -> Trace.best ltb trace' = Some (i, v)).
Proof.
  intros Hne.
  assert (Hex : exists x0 rest, trace = x0 :: rest).
  { clear ltb_asym geb_trans. destruct trace as [|x0 rest]; [congruence|eauto]. }
  destruct Hex as (x0 & rest & Etr).
  destruct (@best_from_earliest_minimum rest [x0] 0 x0) as (H1 & H2 & H3).
  - exact Etr.
  - reflexivity.
  - intros x [<-|[]]. apply ltb_irrefl. rewrite Etr. now left.
  - intros j x Hj. lia.
  - simpl in H1, H2, H3.
    destruct (Trace.best_from ltb 1 0 x0 rest) as [i v] eqn:Eb. simpl in *.
    assert (Hbest : Trace.best ltb trace = Some (i, v))
      by (rewrite Etr; simpl; now rewrite Eb).
    exists i, v. repeat split; auto.
    intros trace' ->. exact Hbest.
Qed.

End BestEntry.

(** The trace of the countdown run: the minimum 0 is first met at
    position 5. *)
Lemma best_is_earliest_minimum_witness :
  exists i v,
    Trace.best PrimFloat.ltb [5; 4; 3; 2; 1; 0; 0; 0]%float = Some (i, v) /\
    nth_error [5; 4; 3; 2; 1; 0; 0; 0]%float i = Some v /\
    (forall x, In x [5; 4; 3; 2; 1; 0; 0; 0]%float -> PrimFloat.ltb x v = false) /\
    (forall j x, j < i -> nth_error [5; 4; 3; 2; 1; 0; 0; 0]%float j = Some x ->
                 PrimFloat.ltb v x = true) /\
    (forall trace', trace' = [5; 4; 3; 2; 1; 0; 0; 0]%float ->
                    Trace.best PrimFloat.ltb trace' = Some (i, v)).
Proof.
  apply (@best_is_earliest_minimum float PrimFloat.ltb [5; 4; 3; 2; 1; 0; 0; 0]%float).
  - intros a b Ha Hb. each_entry Ha; each_entry Hb;
      vm_compute; intros; first [reflexivity | discriminate].
  - intros a b c Ha Hb Hc. each_entry Ha; each_entry Hb; each_entry Hc;
      vm_compute; intros; first [reflexivity | discriminate].
  - discriminate.
Defined.

Example best_of_countdown :
  Trace.best PrimFloat.ltb [5; 4; 3; 2; 1; 0; 0; 0]%float = Some (5, 0%float).
Proof. vm_compute. reflexivity. Qed.

(** ** The objective of the state-learning loop, in IEEE arithmetic *)

Section Rounding.
Variables prec emax : Z.

Lemma shr_1_nonneg (mrs : shr_record) :
  (0 <= shr_m mrs)%Z -> (0 <= shr_m (shr_1 mrs))%Z.
Proof.
  destruct mrs as [m r s]. cbn [shr_m].
  destruct m as [|[p|p|]|p]; cbn; lia.
Qed.

Lemma iter_pos_invariant {A : Type} (P : A -> Prop) (f : A -> A)
    (Hf : forall x, P x -> P (f x)) (n : positive) (x : A) :
  P x -> P (iter_pos f n x).
Proof.
  revert x. induction n as [n IH|n IH|]; intros x Hx; cbn; auto.
Qed.

Lemma shr_nonneg (mrs : shr_record) (e n : Z) :
  (0 <= shr_m mrs)%Z -> (0 <= shr_m (fst (shr mrs e n)))%Z.
Proof.
  intros H. unfold shr. destruct n as [|p|p]; cbn [fst]; try exact H.
  apply (iter_pos_invariant (fun r => (0 <= shr_m r)%Z)); [apply shr_1_nonneg | exact H].
Qed.

Lemma shr_fexp_nonneg (m e : Z) (l : location) :
  (0 <= m)%Z -> (0 <= shr_m (fst (shr_fexp prec emax m e l)))%Z.
Proof.
  intros H. unfold shr_fexp. apply shr_nonneg.
  destruct l as [|[| |]]; exact H.
Qed.

Lemma round_nearest_even_nonneg (m : Z) (l : location) :
  (0 <= m)%Z -> (0 <= round_nearest_even m l)%Z.
Proof.
  intros H. unfold round_nearest_even.
  destruct l as [|[| |]]; try destruct (Z.even m); lia.
Qed.

(** Rounding keeps the sign it is given and never yields NaN. *)
Lemma binary_round_aux_signed (s : bool) (m e : Z) (l : location) :
  (0 <= m)%Z -> signed s (binary_round_aux prec emax s m e l).
Proof.
  intros H. unfold binary_round_aux.
  pose proof (shr_fexp_nonneg e l H) as H1.
  destruct (shr_fexp prec emax m e l) as [mrs' e']. cbn [fst] in H1.
  pose proof (shr_fexp_nonneg e' loc_Exact
                (round_nearest_even_nonneg (loc_of_shr_record mrs') H1)) as H2.
  destruct (shr_fexp prec emax _ e' loc_Exact) as [mrs'' e'']. cbn [fst] in H2.
  destruct (shr_m mrs'') as [|p|p]; cbn; [exact I | | lia].
  destruct (e'' <=? emax - prec)%Z; reflexivity.
Qed.

Lemma binary_round_signed (s : bool) (m : positive) (e : Z) :
  signed s (binary_round prec emax s m e).
Proof.
  unfold binary_round. destruct (shl_align m e _) as [mz ez].
  apply binary_round_aux_signed. lia.
Qed.

Lemma binary_normalize_not_nan (m e : Z) (szero : bool) :
  binary_normalize prec emax m e szero <> S754_nan.
Proof.
  destruct m as [|p|p]; cbn; [discriminate | |].
  - pose proof (binary_round_signed false p e) as H. intros E. now rewrite E in H.
  - pose proof (binary_round_signed true p e) as H. intros E. now rewrite E in H.
Qed.

(** The difference of two finite floats is never NaN (it may overflow to an
    infinity). *)
Lemma SFsub_finite (x y : spec_float) :
  finite_float x = true -> finite_float y = true -> SFsub prec emax x y <> S754_nan.
Proof.
  destruct x as [sx|sx| |sx mx ex], y as [sy|sy| |sy my ey];
    cbn [finite_float]; intros Hx Hy; try discriminate Hx; try discriminate Hy;
    cbn [SFsub];
    first [ discriminate
          | destruct sx, sy; discriminate
          | apply binary_normalize_not_nan ].
Qed.

(** The difference of a finite float and itself is [+0]. *)
Lemma SFsub_diag (x : spec_float) :
  finite_float x = true -> SFsub prec emax x x = S754_zero false.
Proof.
  destruct x as [s|s| |s m e]; try discriminate; intros _.
  - now destruct s.
  - cbn [SFsub]. now rewrite Z.sub_diag.
Qed.

Lemma SFmul_self_signed (x : spec_float) :
  x <> S754_nan -> signed false (SFmul prec emax x x).
Proof.
  destruct x as [s|s| |s m e]; intros Hx; cbn.
  - exact I.
  - now destruct s.
  - contradiction.
  - replace (xorb s s) with false by now destruct s.
    apply binary_round_aux_signed. lia.
Qed.

Lemma SFmul_opp_self_signed (x : spec_float) :
  x <> S754_nan -> signed true (SFmul prec emax (SFopp x) x).
Proof.
  destruct x as [s|s| |s m e]; intros Hx; cbn.
  - exact I.
  - now destruct s.
  - contradiction.
  - replace (xorb (negb s) s) with true by now destruct s.
    apply binary_round_aux_signed. lia.
Qed.

(** A number that is not negative minus one that is not positive is not
    negative, and neither is the sum of two that are not negative. *)
Lemma SFsub_signed (a b : spec_float) :
  signed false a -> signed true b -> signed false (SFsub prec emax a b).
Proof.
  destruct a as [sa|sa| |sa ma ea], b as [sb|sb| |sb mb eb]; cbn;
    try contradiction; intros Ha Hb; subst; try exact I; try reflexivity.
  - now destruct sa, sb.
  - pose proof (binary_round_signed false
      (fst (shl_align ma ea (Z.min ea eb)) + fst (shl_align mb eb (Z.min ea eb)))
      (Z.min ea eb)) as H.
    exact H.
Qed.

Lemma SFadd_signed (a b : spec_float) :
  signed false a -> signed false b -> signed false (SFadd prec emax a b).
Proof.
  destruct a as [sa|sa| |sa ma ea], b as [sb|sb| |sb mb eb]; cbn;
    try contradiction; intros Ha Hb; subst; try exact I; try reflexivity.
  - now destruct sa, sb.
  - pose proof (binary_round_signed false
      (fst (shl_align ma ea (Z.min ea eb)) + fst (shl_align mb eb (Z.min ea eb)))
      (Z.min ea eb)) as H.
    exact H.
Qed.

Lemma signed_false_leb (x : spec_float) :
  signed false x -> SFleb (S754_zero false) x = true.
Proof.
  destruct x as [s|s| |s m e]; cbn; try contradiction; intros H; subst; reflexivity.
Qed.

End Rounding.

Section LossFn.
Variables prec emax : Z.
Variable Params : Type.
Variable circuit : Params -> StateLearning.State spec_float.

Abbreviation arithmetic := (ieee_scalar prec emax).
Abbreviation loss :=
  (@StateLearning.loss_fn spec_float arithmetic Params circuit).

(** The difference of two arrays that broadcast has the length of the
    longer, or of the other one when one has length 1. *)
Lemma vsub_length (a b : StateLearning.State spec_float) :
  StateLearning.broadcasts a b ->
  length (@StateLearning.vsub spec_float arithmetic a b) =
  if length a =? 1 then length b else length a.
Proof.
  unfold StateLearning.broadcasts, StateLearning.vsub.
  destruct a as [|x [|x' a]], b as [|y [|y' b]]; cbn [length Nat.eqb];
    intros H; rewrite ?length_map, ?length_combine; cbn [length];
    try reflexivity; lia.
Qed.

(** Every entry of a difference of states is the difference of an entry of
    the one and an entry of the other. *)
Lemma vsub_entries (a b : StateLearning.State spec_float) :
  Forall (fun d => exists x y, In x a /\ In y b /\
                               d = @StateLearning.csub spec_float arithmetic x y)
         (@StateLearning.vsub spec_float arithmetic a b).
Proof.
  assert (Hzip : forall a b : StateLearning.State spec_float,
            Forall (fun d => exists x y, In x a /\ In y b /\
                                         d = @StateLearning.csub spec_float arithmetic x y)
                   (map (fun xy => @StateLearning.csub spec_float arithmetic (fst xy) (snd xy))
                        (combine a b))).
  { clear a b. intros a b. apply Forall_forall. intros d Hd.
    apply in_map_iff in Hd. destruct Hd as ([x y] & <- & Hin).
    exists x, y. split; [eapply in_combine_l, Hin|].
    split; [eapply in_combine_r, Hin | reflexivity]. }
  assert (Hleft : forall x (b : StateLearning.State spec_float),
            Forall (fun d => exists x' y, In x' [x] /\ In y b /\
                                          d = @StateLearning.csub spec_float arithmetic x' y)
                   (map (fun y => @StateLearning.csub spec_float arithmetic x y) b)).
  { clear a b. intros x b. apply Forall_forall. intros d Hd.
    apply in_map_iff in Hd. destruct Hd as (y & <- & Hin).
    exists x, y. split; [now left|]. split; [exact Hin | reflexivity]. }
  assert (Hright : forall y (a : StateLearning.State spec_float),
            Forall (fun d => exists x y', In x a /\ In y' [y] /\
                                          d = @StateLearning.csub spec_float arithmetic x y')
                   (map (fun x => @StateLearning.csub spec_float arithmetic x y) a)).
  { clear a b. intros y a. apply Forall_forall. intros d Hd.
    apply in_map_iff in Hd. destruct Hd as (x & <- & Hin).
    exists x, y. split; [exact Hin|]. split; [now left | reflexivity]. }
  unfold StateLearning.vsub.
  destruct a as [|x [|x' a]], b as [|y [|y' b]];
    first [apply Hzip | apply Hleft | apply Hright].
Qed.

(** The difference of two finite states has no NaN in it. *)
Lemma vsub_not_nan (a b : StateLearning.State spec_float) :
  finite_state a -> finite_state b ->
  Forall (fun d => fst d <> S754_nan /\ snd d <> S754_nan)
         (@StateLearning.vsub spec_float arithmetic a b).
Proof.
  intros Ha Hb. unfold finite_state in *. rewrite Forall_forall in Ha, Hb.
  eapply Forall_impl; [|apply vsub_entries].
  intros d (x & y & Hx & Hy & ->).
  destruct (Ha x Hx) as [Hx1 Hx2], (Hb y Hy) as [Hy1 Hy2].
  split; now apply SFsub_finite.
Qed.

(** The real part of [vdot(d, d)] accumulates numbers that are not
    negative. *)
Lemma vdot_self_signed (d : StateLearning.State spec_float)
    (acc : StateLearning.Cplx spec_float) :
  Forall (fun z => fst z <> S754_nan /\ snd z <> S754_nan) d ->
  signed false (fst acc) ->
  signed false
    (StateLearning.creal
       (fold_left (fun a xy => @StateLearning.cadd spec_float arithmetic a
                     (@StateLearning.cmul spec_float arithmetic
                        (@StateLearning.cconj spec_float arithmetic (fst xy)) (snd xy)))
                  (combine d d) acc)).
Proof.
  intros Hd. revert acc. induction Hd as [|[re im] d [Hre Him] _ IH]; intros acc Hacc.
  - exact Hacc.
  - cbn [combine fold_left]. apply IH.
    cbn [StateLearning.cadd StateLearning.cmul StateLearning.cconj fst snd
         sadd ssub smul sopp ieee_scalar].
    apply SFadd_signed; [exact Hacc|].
    apply SFsub_signed; [now apply SFmul_self_signed | now apply SFmul_opp_self_signed].
Qed.

(** The difference of a finite state and itself is all [+0], and so is
    what [vdot] accumulates over it. *)
Lemma vsub_diag (a : StateLearning.State spec_float) :
  finite_state a ->
  @StateLearning.vsub spec_float arithmetic a a =
  repeat (S754_zero false, S754_zero false) (length a).
Proof.
  intros Ha.
  assert (Hzip : map (fun xy => @StateLearning.csub spec_float arithmetic (fst xy) (snd xy))
                     (combine a a) =
                 repeat (S754_zero false, S754_zero false) (length a)).
  { induction Ha as [|[re im] a [Hre Him] _ IH]; [reflexivity|].
    cbn [combine map length repeat]. rewrite IH. f_equal.
    unfold StateLearning.csub. cbn [fst snd ssub ieee_scalar].
    now rewrite !SFsub_diag. }
  unfold StateLearning.vsub. destruct a as [|x [|x' a]]; exact Hzip.
Qed.

Lemma vdot_zeros (n : nat) :
  @StateLearning.vdot spec_float arithmetic
    (repeat (S754_zero false, S754_zero false) n)
    (repeat (S754_zero false, S754_zero false) n) =
  (S754_zero false, S754_zero false).
Proof.
  unfold StateLearning.vdot, StateLearning.czero. cbn [szero ieee_scalar].
  induction n as [|n IH]; [reflexivity|].
  cbn [repeat combine fold_left]. exact IH.
Qed.


End LossFn.



(** A target of length 1 is subtracted from every amplitude: against the
    array [[1.0]] the loss at the initial parameters is 3. *)
Example loss_against_a_broadcast_target :
  StateLearning.loss_fn (T := float) circuit_at_zeros tt [(1%float, 0%float)] = 3%float.
Proof. vm_compute. reflexivity. Qed.

(** On binary64 floats the loss at the initial parameters against the Bell
    state is [(1 - 1/sqrt 2)^2 + (1/sqrt 2)^2], the [0.585786] the notebook
    prints at step 0. *)
Example loss_at_initial_parameters :
  let loss := StateLearning.loss_fn (T := float) circuit_at_zeros tt bell_state in
  PrimFloat.ltb 0.5857855%float loss = true /\
  PrimFloat.ltb loss 0.5857865%float = true.
Proof. vm_compute. split; reflexivity. Qed.

(* ================================================================== *)
(** * Part III: further properties of the notebooks' code *)
(* ================================================================== *)

(** ** What the loops print and how runs compose *)

Section ForRangeMore.
Context {W St : Type}.
Variable body : nat -> St -> Eval W St.

(** A list the body extends by some entries per iteration is, after the
    loop, the concatenation of what the iterations emitted. *)
Lemma for_range_flat_trace {A : Type} (track : St -> list A)
    (emitted : nat -> St -> W -> list A)
    (Hbody : forall i st w, track (result (body i st) w) = track st ++ emitted i st w)
    (n : nat) (st : St) (w : W) :
  track (result (for_range n body st) w) =
  track st ++ flat_map (fun i => emitted i (result (for_range i body st) w)
                                           (world_after (for_range i body st) w))
                       (seq 0 n).
Proof.
  induction n as [|n IH].
  - simpl. unfold result. rewrite for_range_0. simpl. now rewrite app_nil_r.
  - unfold result at 1. rewrite for_range_S.
    fold (result (body n (result (for_range n body st) w))
                 (world_after (for_range n body st) w)).
    rewrite Hbody, IH, seq_S, flat_map_app, <- app_assoc. simpl.
    now rewrite app_nil_r.
Qed.

(** Two loops whose bodies keep a relation between their states, and move
    the world alike, end in related states and the same world. *)
Lemma for_each_simulation {St' : Type} (body' : nat -> St' -> Eval W St')
    (R : St -> St' -> Prop)
    (Hbody : forall i j st st' w, R st st' ->
       R (result (body i st) w) (result (body' j st') w) /\
       world_after (body i st) w = world_after (body' j st') w)
    (l l' : list nat) (st : St) (st' : St') (w : W) :
  length l = length l' -> R st st' ->
  R (result (for_each body l st) w) (result (for_each body' l' st') w) /\
  world_after (for_each body l st) w = world_after (for_each body' l' st') w.
Proof.
  revert l' st st' w. induction l as [|i l IH]; intros [|j l'] st st' w Hlen HR;
    simpl in Hlen; try lia.
  - split; [exact HR | reflexivity].
  - destruct (Hbody i j st st' w HR) as [HR' Hw].
    unfold result, world_after in *. simpl. unfold bind.
    destruct (body i st w) as [s1 w1], (body' j st' w) as [s2 w2].
    simpl in *. subst w2. apply IH; [lia | exact HR'].
Qed.

Lemma for_range_add (n m : nat) (st : St) (w : W) :
  for_range (n + m) body st w =
  for_each body (seq n m) (result (for_range n body st) w)
           (world_after (for_range n body st) w).
Proof. unfold for_range. rewrite seq_app. apply for_each_app. Qed.

End ForRangeMore.

Lemma flat_map_if_filter {A B : Type} (c : A -> bool) (f : A -> B) (l : list A) :
  flat_map (fun a => if c a then [f a] else []) l = map f (filter c l).
Proof.
  induction l as [|a l IH]; simpl; [reflexivity|].
  destruct (c a); simpl; now rewrite IH.
Qed.

Section Printing.
Context {T : Type} {ST : Scalar T} {W : Type}.
Variable opt : VQE.GradientDescentOptimizer T.
Variable cost_fn : VQE.Objective T W.
Variable p0 : list T.
Variable w : W.

(** X1: the VQE loop prints at exactly the iterations divisible by 10, in
    increasing order, and the cost on the line of iteration [i] is entry
    [i] of [energy_track]. *)
Theorem vqe_loop_prints_every_tenth_step (steps : nat) :
  let v := result (VQE.run opt cost_fn steps p0) w in
  map fst (VQE.stdout v) = printed_steps steps /\
  (forall i c, In (i, c) (VQE.stdout v) ->
     nth_error (VQE.energy_track v) i = Some c).
Proof.
  assert (Hout : VQE.stdout (result (VQE.run opt cost_fn steps p0) w) =
                 map (fun i => (i, VQE.cost_at opt cost_fn p0 w i)) (printed_steps steps)).
  { unfold VQE.run.
    rewrite (for_range_flat_trace (VQE.loop_body opt cost_fn) (@VQE.stdout T)
               (fun i v u => if i mod 10 =? 0
                             then [(i, fst (result (cost_fn (VQE.params v)) u))] else [])).
    - simpl. unfold printed_steps.
      rewrite <- (flat_map_if_filter (fun i => i mod 10 =? 0)
                    (fun i => (i, VQE.cost_at opt cost_fn p0 w i))).
      reflexivity.
    - intros i v u. unfold result at 1. rewrite loop_body_unfold.
      cbv zeta. cbn [fst VQE.stdout].
      destruct (i mod 10 =? 0); [reflexivity | now rewrite app_nil_r]. }
  cbv zeta. rewrite Hout. split.
  - rewrite map_map. cbn [fst]. apply map_id.
  - intros i c Hin. apply in_map_iff in Hin. destruct Hin as (j & Hj & Hin).
    injection Hj as Hi Hc. subst i c.
    unfold printed_steps in Hin. apply filter_In in Hin. destruct Hin as [Hin _].
    apply in_seq in Hin.
    rewrite energy_track_cost_at, nth_error_map.
    rewrite nth_error_nth' with (d := 0) by (rewrite length_seq; lia).
    rewrite seq_nth by lia. reflexivity.
Qed.

(** X3: [energy_track[-1]], which the notebook reports as the VQE estimated
    energy, is the cost at the parameters held before the last update, not
    the cost at the final parameters; after a loop of zero steps the trace
    is empty and the index raises. *)
Theorem reported_energy_is_cost_before_last_update (steps : nat) :
  last_entry (VQE.energy_track (result (VQE.run opt cost_fn steps p0) w)) =
  match steps with
  | 0 => None
  | S n => Some (fst (result (cost_fn (VQE.params_at opt cost_fn p0 w n))
                             (world_after (VQE.run opt cost_fn n p0) w)))
  end.
Proof.
  rewrite energy_track_cost_at. unfold last_entry.
  destruct steps as [|n]; [reflexivity|].
  rewrite seq_S, map_app, rev_app_distr. reflexivity.
Qed.

(** X4: a run of [n + m] steps ends with the parameters, and in the world,
    of a run of [m] steps begun where a run of [n] steps ended, and its
    trace is the trace of the first run followed by that of the second. *)
Theorem vqe_run_splits (n m : nat) :
  let first := VQE.run opt cost_fn n p0 in
  let second := VQE.run opt cost_fn m (VQE.params (result first w)) in
  let whole := VQE.run opt cost_fn (n + m) p0 in
  VQE.params (result whole w) = VQE.params (result second (world_after first w)) /\
  VQE.energy_track (result whole w) =
    VQE.energy_track (result first w) ++
    VQE.energy_track (result second (world_after first w)) /\
  world_after whole w = world_after second (world_after first w).
Proof.
  cbv zeta.
  set (v1 := result (VQE.run opt cost_fn n p0) w).
  set (w1 := world_after (VQE.run opt cost_fn n p0) w).
  set (R := fun a b : VQE.vars T =>
              VQE.params a = VQE.params b /\
              VQE.energy_track a = VQE.energy_track v1 ++ VQE.energy_track b).
  assert (Hbody : forall i j a b u, R a b ->
            R (result (VQE.loop_body opt cost_fn i a) u)
              (result (VQE.loop_body opt cost_fn j b) u) /\
            world_after (VQE.loop_body opt cost_fn i a) u =
            world_after (VQE.loop_body opt cost_fn j b) u).
  { intros i j a b u [Hp Ht]. unfold R, result, world_after.
    rewrite !loop_body_unfold. cbv zeta. cbn [fst snd VQE.params VQE.energy_track].
    rewrite Hp, Ht, app_assoc. auto. }
  assert (Hlen : length (seq n m) = length (seq 0 m)) by now rewrite !length_seq.
  assert (HR : R v1 (VQE.init (VQE.params v1))).
  { unfold R. cbn [VQE.init VQE.params VQE.energy_track]. now rewrite app_nil_r. }
  destruct (@for_each_simulation W (VQE.vars T) (VQE.loop_body opt cost_fn)
              (VQE.vars T) (VQE.loop_body opt cost_fn) R Hbody
              (seq n m) (seq 0 m) v1 (VQE.init (VQE.params v1)) w1 Hlen HR)
    as [[Hp Ht] Hw].
  assert (Hwhole : VQE.run opt cost_fn (n + m) p0 w =
                   for_each (VQE.loop_body opt cost_fn) (seq n m) v1 w1)
    by (unfold VQE.run; apply for_range_add).
  clearbody v1 w1. unfold result, world_after in *. rewrite Hwhole.
  unfold VQE.run, for_range. auto.
Qed.

End Printing.

(** The notebook's fifty steps print at 0, 10, 20, 30 and 40, as its
    recorded output shows. *)
Example vqe_printed_steps : printed_steps 50 = [0; 10; 20; 30; 40].
Proof. reflexivity. Qed.

Section OptaxPrinting.
Context {T : Type} {ST : Scalar T} {W : Type}.
Variables Params Grads Updates OptState : Type.
Variable circuit : Params -> StateLearning.State T.
Variable value_and_grad :
  (Params -> StateLearning.State T -> T) -> Params -> StateLearning.State T ->
  Eval W (T * Grads).
Variable optimizer_update : Grads -> OptState -> Updates * OptState.
Variable apply_updates : Params -> Updates -> Params.
Variable target_state : StateLearning.State T.

Abbreviation jax_body :=
  (StateLearning.loop_body circuit value_and_grad optimizer_update apply_updates
     target_state).
Abbreviation jax_run n p s :=
  (StateLearning.run circuit value_and_grad optimizer_update apply_updates
     n p s target_state).

(** X2: the training loop of the state-learning notebook prints at exactly
    the iterations divisible by 10, in increasing order, and the loss on
    the line of iteration [i] is entry [i] of [loss_history]. *)
Theorem training_loop_prints_every_tenth_step
    (num_steps : nat) (p0 : Params) (s0 : OptState) (w : W) :
  let v := result (jax_run num_steps p0 s0) w in
  map fst (StateLearning.stdout v) = printed_steps num_steps /\
  (forall i c, In (i, c) (StateLearning.stdout v) ->
     nth_error (StateLearning.loss_history v) i = Some c).
Proof.
  set (loss_at := fun i =>
    fst (result (value_and_grad (StateLearning.loss_fn circuit)
                   (StateLearning.params (result (jax_run i p0 s0) w)) target_state)
                (world_after (jax_run i p0 s0) w))).
  assert (Hout : StateLearning.stdout (result (jax_run num_steps p0 s0) w) =
                 map (fun i => (i, loss_at i)) (printed_steps num_steps)).
  { unfold StateLearning.run.
    rewrite (for_range_flat_trace jax_body (@StateLearning.stdout T Params OptState)
               (fun i v u =>
                  if i mod 10 =? 0
                  then [(i, fst (result (value_and_grad (StateLearning.loss_fn circuit)
                                           (StateLearning.params v) target_state) u))]
                  else [])).
    - cbn [StateLearning.init StateLearning.stdout app]. unfold printed_steps.
      rewrite <- (flat_map_if_filter (fun i => i mod 10 =? 0) (fun i => (i, loss_at i))).
      reflexivity.
    - intros i v u. unfold result at 1. rewrite jax_loop_body_unfold.
      cbv zeta. cbn [fst StateLearning.stdout].
      destruct (i mod 10 =? 0); [reflexivity | now rewrite app_nil_r]. }
  cbv zeta. rewrite Hout. split.
  - rewrite map_map. cbn [fst]. apply map_id.
  - intros i c Hin. apply in_map_iff in Hin. destruct Hin as (j & Hj & Hin).
    injection Hj as Hi Hc. subst i c.
    unfold printed_steps in Hin. apply filter_In in Hin. destruct Hin as [Hin _].
    apply in_seq in Hin.
    rewrite (run_loss_history circuit optimizer_update apply_updates value_and_grad
               num_steps p0 s0 target_state w).
    rewrite nth_error_map.
    rewrite nth_error_nth' with (d := 0) by (rewrite length_seq; lia).
    rewrite seq_nth by lia. reflexivity.
Qed.

(** X5: a training run of [n + m] steps ends with the parameters and the
    optimizer state, and in the world, of a run of [m] steps begun from the
    parameters and the optimizer state a run of [n] steps ended with, and
    its loss history is that of the first run followed by that of the
    second. *)
Theorem training_run_splits (n m : nat) (p0 : Params) (s0 : OptState) (w : W) :
  let first := jax_run n p0 s0 in
  let second := jax_run m (StateLearning.params (result first w))
                        (StateLearning.opt_state (result first w)) in
  let whole := jax_run (n + m) p0 s0 in
  StateLearning.params (result whole w) =
    StateLearning.params (result second (world_after first w)) /\
  StateLearning.opt_state (result whole w) =
    StateLearning.opt_state (result second (world_after first w)) /\
  StateLearning.loss_history (result whole w) =
    StateLearning.loss_history (result first w) ++
    StateLearning.loss_history (result second (world_after first w)) /\
  world_after whole w = world_after second (world_after first w).
Proof.
  cbv zeta beta.
  set (v1 := result (jax_run n p0 s0) w).
  set (w1 := world_after (jax_run n p0 s0) w).
  set (R := fun a b : StateLearning.vars T Params OptState =>
              StateLearning.params a = StateLearning.params b /\
              StateLearning.opt_state a = StateLearning.opt_state b /\
              StateLearning.loss_history a =
              StateLearning.loss_history v1 ++ StateLearning.loss_history b).
  assert (Hbody : forall i j a b u, R a b ->
            R (result (jax_body i a) u) (result (jax_body j b) u) /\
            world_after (jax_body i a) u = world_after (jax_body j b) u).
  { intros i j a b u (Hp & Hs & Ht). unfold R, result, world_after.
    rewrite !jax_loop_body_unfold. cbv zeta.
    cbn [fst snd StateLearning.params StateLearning.opt_state StateLearning.loss_history].
    rewrite Hp, Hs, Ht, app_assoc. auto. }
  assert (Hlen : length (seq n m) = length (seq 0 m)) by now rewrite !length_seq.
  set (v0 := StateLearning.init (T := T) (StateLearning.params v1)
               (StateLearning.opt_state v1)).
  assert (HR : R v1 v0).
  { unfold R, v0.
    cbn [StateLearning.init StateLearning.params StateLearning.opt_state
         StateLearning.loss_history].
    now rewrite app_nil_r. }
  destruct (@for_each_simulation W _ jax_body _ jax_body R Hbody
              (seq n m) (seq 0 m) v1 v0 w1 Hlen HR) as [(Hp & Hs & Ht) Hw].
  assert (Hwhole : jax_run (n + m) p0 s0 w = for_each jax_body (seq n m) v1 w1)
    by (unfold StateLearning.run; apply for_range_add).
  clearbody v1 w1. unfold result, world_after in *. rewrite Hwhole.
  unfold StateLearning.run, for_range. auto.
Qed.

End OptaxPrinting.

(** ** Conjugation by CNOT *)

Section CNOTConjugation.
Open Scope R_scope.

(** CNOT exchanges the last two rows and the last two columns of the
    array it conjugates. *)
Lemma conjugate_CNOT_exchanges
    (a11 a12 a13 a14 a21 a22 a23 a24 a31 a32 a33 a34 a41 a42 a43 a44 : R * R) :
  GroupTheory.conjugate
    [[a11; a12; a13; a14]; [a21; a22; a23; a24];
     [a31; a32; a33; a34]; [a41; a42; a43; a44]] GroupTheory.CNOT =
  Some [[a11; a12; a14; a13]; [a21; a22; a24; a23];
        [a41; a42; a44; a43]; [a31; a32; a34; a33]].
Proof.
  destruct a11, a12, a13, a14, a21, a22, a23, a24,
           a31, a32, a33, a34, a41, a42, a43, a44.
  entrywise.
Qed.

Lemma cnot_rule_correct (p q : GroupTheory.Pauli) :
  GroupTheory.conjugate (T := R)
    (GroupTheory.kron (GroupTheory.pauli p) (GroupTheory.pauli q)) GroupTheory.CNOT =
  Some (signed_pauli_string (cnot_rule p q)).
Proof.
  destruct p, q;
    (match goal with
     | |- GroupTheory.conjugate ?m _ = _ =>
         let m' := eval vm_compute in m in change m with m'
     end;
     rewrite conjugate_CNOT_exchanges; entrywise).
Qed.

(** X7: conjugation by CNOT maps the six two-qubit Pauli generators as the
    notebook tabulates (X(x)I to X(x)X, I(x)X to I(x)X, Y(x)I to Y(x)X,
    I(x)Y to Z(x)Y, Z(x)I to Z(x)I, I(x)Z to Z(x)Z), and maps each of the
    sixteen Pauli strings to the signed Pauli string [cnot_rule] names, the
    sign being negative exactly on X(x)Z and Y(x)Y: CNOT preserves the
    Pauli group.  In exact arithmetic. *)
Theorem cnot_preserves_the_pauli_group :
  GroupTheory.conjugate (T := R) GroupTheory.XI GroupTheory.CNOT =
    Some (GroupTheory.kron GroupTheory.X GroupTheory.X) /\
  GroupTheory.conjugate (T := R) GroupTheory.IX GroupTheory.CNOT =
    Some (GroupTheory.kron GroupTheory.I GroupTheory.X) /\
  GroupTheory.conjugate (T := R) GroupTheory.YI GroupTheory.CNOT =
    Some (GroupTheory.kron GroupTheory.Y GroupTheory.X) /\
  GroupTheory.conjugate (T := R) GroupTheory.IY GroupTheory.CNOT =
    Some (GroupTheory.kron GroupTheory.Z GroupTheory.Y) /\
  GroupTheory.conjugate (T := R) GroupTheory.ZI GroupTheory.CNOT =
    Some (GroupTheory.kron GroupTheory.Z GroupTheory.I) /\
  GroupTheory.conjugate (T := R) GroupTheory.IZ GroupTheory.CNOT =
    Some (GroupTheory.kron GroupTheory.Z GroupTheory.Z) /\
  (forall p q : GroupTheory.Pauli,
     GroupTheory.conjugate (T := R)
       (GroupTheory.kron (GroupTheory.pauli p) (GroupTheory.pauli q)) GroupTheory.CNOT =
     Some (signed_pauli_string (cnot_rule p q))).
Proof.
  repeat split.
  - exact (cnot_rule_correct GroupTheory.PX GroupTheory.PI).
  - exact (cnot_rule_correct GroupTheory.PI GroupTheory.PX).
  - exact (cnot_rule_correct GroupTheory.PY GroupTheory.PI).
  - exact (cnot_rule_correct GroupTheory.PI GroupTheory.PY).
  - exact (cnot_rule_correct GroupTheory.PZ GroupTheory.PI).
  - exact (cnot_rule_correct GroupTheory.PI GroupTheory.PZ).
  - exact cnot_rule_correct.
Qed.

End CNOTConjugation.

Section ConjugateShapes.
Context {T : Type} {ST : Scalar T}.

(** X9: for a two-dimensional array [op] of [n] rows and [k] columns,
    [conjugate(op, CNOT)] returns an array exactly when [n = 4] and
    [k = 4]; on a two-dimensional array of any other shape one of its two
    matrix products raises. *)
Theorem conjugate_by_cnot_needs_4_by_4 (n k : nat) (op : GroupTheory.Matrix T) :
  GroupTheory.has_shape n k op ->
  ((exists r, GroupTheory.conjugate op GroupTheory.CNOT = Some r) <-> n = 4 /\ k = 4).
Proof.
  intros [Hn Hk]. unfold GroupTheory.conjugate.
  destruct (GroupTheory.matmul GroupTheory.CNOT op) as [gate_op|] eqn:E1;
    unfold GroupTheory.matmul in E1;
    change (GroupTheory.ncols GroupTheory.CNOT) with 4 in E1;
    unfold GroupTheory.nrows in E1; rewrite Hn in E1;
    destruct (Nat.eqb_spec 4 n) as [E|E]; try discriminate.
  - injection E1 as <-. subst n. unfold GroupTheory.matmul.
    change (GroupTheory.nrows (GroupTheory.transpose (GroupTheory.conj GroupTheory.CNOT)))
      with 4.
    assert (Hc : GroupTheory.ncols
                   (map (fun r => map (fun j => GroupTheory.dot r (GroupTheory.col j op))
                                      (seq 0 (GroupTheory.ncols op)))
                        GroupTheory.CNOT) = k).
    { destruct op as [|r op]; [discriminate|].
      inversion Hk; subst. cbn [GroupTheory.CNOT map GroupTheory.ncols].
      now rewrite length_map, length_seq. }
    match goal with
    | |- context [Nat.eqb ?x 4] => replace x with k by (symmetry; exact Hc)
    end.
    destruct (Nat.eqb_spec k 4) as [E'|E'].
    + split; [auto | intros _; eexists; reflexivity].
    + split; [intros [r Hr]; discriminate | intros [_ E'']; contradiction].
  - split; [intros [r Hr]; discriminate | intros [E' _]; congruence].
Qed.

End ConjugateShapes.

(** ** Conjugation on binary64 arrays *)

(** X8: on the sixteen two-qubit Pauli strings, as binary64 arrays,
    conjugating twice by CNOT gives back the string, and the conjugate of
    the product of two strings is the product of their conjugates; the
    arrays are equal entry for entry as numpy compares them, and none of
    the products raises. *)
Theorem cnot_conjugation_on_pauli_strings (p q p' q' : GroupTheory.Pauli) :
  let P := GroupTheory.kron (GroupTheory.pauli p) (GroupTheory.pauli q) in
  let Q := GroupTheory.kron (GroupTheory.pauli p') (GroupTheory.pauli q') in
  GroupTheory.both_return GroupTheory.array_equal
    (and_then (GroupTheory.conjugate P GroupTheory.CNOT)
              (fun P' => GroupTheory.conjugate P' GroupTheory.CNOT))
    (Some P) = true /\
  GroupTheory.both_return GroupTheory.array_equal
    (and_then (GroupTheory.matmul P Q)
              (fun PQ => GroupTheory.conjugate PQ GroupTheory.CNOT))
    (and_then (GroupTheory.conjugate P GroupTheory.CNOT) (fun P' =>
     and_then (GroupTheory.conjugate Q GroupTheory.CNOT) (fun Q' =>
     GroupTheory.matmul P' Q'))) = true.
Proof.
  destruct p, q, p', q'; vm_compute; split; reflexivity.
Qed.

(** ** Conjugation by the Hadamard and the phase gate *)


(** ** The quantum encoder of the hybrid VAE *)

Section Traverse.
Context {A B : Type}.
Variable f : A -> option B.

Lemma traverse_Forall2 (l : list A) (bs : list B) :
  traverse f l = Some bs <-> Forall2 (fun a b => f a = Some b) l bs.
Proof.
  revert bs. induction l as [|a l IH]; intros bs; simpl.
  - split.
    + intros H. injection H as <-. constructor.
    + intros H. inversion H. reflexivity.
  - split.
    + intros H. destruct (f a) as [b|] eqn:Ea; simpl in H; [|discriminate].
      destruct (traverse f l) as [bs'|] eqn:El; simpl in H; [|discriminate].
      injection H as <-. constructor; [exact Ea | now apply IH].
    + intros H. inversion H as [|? b ? bs' Hab Hrest]; subst.
      rewrite Hab. simpl. apply IH in Hrest. rewrite Hrest. reflexivity.
Qed.

Lemma traverse_length (l : list A) (bs : list B) :
  traverse f l = Some bs -> length bs = length l.
Proof.
  intros H. apply traverse_Forall2 in H. symmetry. eapply Forall2_length, H.
Qed.

Lemma traverse_succeeds_iff (l : list A) :
  (exists bs, traverse f l = Some bs) <-> (forall a, In a l -> exists b, f a = Some b).
Proof.
  induction l as [|a l IH]; simpl.
  - split; [intros _ a [] | intros _; eauto].
  - split.
    + intros [bs H]. destruct (f a) as [b|] eqn:Ea; simpl in H; [|discriminate].
      destruct (traverse f l) as [bs'|] eqn:El; simpl in H; [|discriminate].
      intros a' [<-|Hin]; [eauto|]. apply IH; eauto.
    + intros H. destruct (H a (or_introl eq_refl)) as [b Hb]. rewrite Hb. simpl.
      destruct IH as [_ IH]. destruct IH as [bs Hbs]; [intros; apply H; now right|].
      rewrite Hbs. simpl. eauto.
Qed.

Lemma traverse_results (P : B -> Prop) (l : list A) (bs : list B) :
  traverse f l = Some bs ->
  (forall a b, In a l -> f a = Some b -> P b) -> Forall P bs.
Proof.
  intros H HP. apply traverse_Forall2 in H.
  induction H as [|a b l bs Hab _ IH]; constructor.
  - apply (HP a b); [now left | exact Hab].
  - apply IH. intros a' b' Hin. apply HP. now right.
Qed.

Lemma traverse_ext_in (g : A -> option B) (l : list A) :
  (forall a, In a l -> f a = g a) -> traverse f l = traverse g l.
Proof.
  induction l as [|a l IH]; intros H; simpl; [reflexivity|].
  rewrite (H a (or_introl eq_refl)), IH; [reflexivity|].
  intros a' Hin. apply H. now right.
Qed.

Lemma traverse_app (l1 l2 : list A) :
  traverse f (l1 ++ l2) =
  and_then (traverse f l1) (fun b1 =>
  and_then (traverse f l2) (fun b2 => Some (b1 ++ b2))).
Proof.
  induction l1 as [|a l1 IH]; simpl.
  - destruct (traverse f l2); reflexivity.
  - destruct (f a) as [b|]; simpl; [|reflexivity].
    rewrite IH. destruct (traverse f l1) as [b1|]; simpl; [|reflexivity].
    destruct (traverse f l2); reflexivity.
Qed.

End Traverse.

Lemma concat_length_const {A : Type} (k : nat) (ls : list (list A)) :
  Forall (fun r => length r = k) ls -> length (concat ls) = length ls * k.
Proof.
  induction 1 as [|r ls Hr _ IH]; simpl; [reflexivity|].
  rewrite length_app, Hr, IH. reflexivity.
Qed.

Section QuantumEncoder.
Context {T : Type}.
Variables n_qubits n_layers : nat.
Variable inputs : list T.
Variable weights : list (list (list T)).

Lemma encoding_succeeds_iff :
  (exists enc, HybridVAE.encoding n_qubits inputs = Some enc) <->
  n_qubits <= length inputs.
Proof.
  unfold HybridVAE.encoding. rewrite traverse_succeeds_iff. split.
  - intros H. destruct n_qubits as [|n]; [lia|].
    destruct (H n) as [b Hb]; [apply in_seq; lia|].
    destruct (nth_error inputs n) eqn:E; [|discriminate].
    assert (n < length inputs) by (apply nth_error_Some; congruence). lia.
  - intros H i Hi. apply in_seq in Hi.
    destruct (nth_error inputs i) eqn:E; [simpl; eauto|].
    apply nth_error_None in E. lia.
Qed.

Lemma layer_succeeds_iff (l : nat) :
  (exists ops, HybridVAE.layer n_qubits weights l = Some ops) <->
  (forall i, i < n_qubits ->
     exists a b, HybridVAE.index3 weights l i 0 = Some a /\
                 HybridVAE.index3 weights l i 1 = Some b).
Proof.
  unfold HybridVAE.layer. split.
  - intros [ops H] i Hi.
    destruct (traverse _ (seq 0 n_qubits)) as [rot|] eqn:E; [|discriminate].
    assert (Hex : exists bs, traverse
      (fun i => and_then (HybridVAE.index3 weights l i 0) (fun a =>
                and_then (HybridVAE.index3 weights l i 1) (fun b =>
                Some [HybridVAE.RY a i; HybridVAE.RZ b i]))) (seq 0 n_qubits) = Some bs)
      by eauto.
    rewrite traverse_succeeds_iff in Hex.
    destruct (Hex i) as [b Hb]; [apply in_seq; lia|].
    destruct (HybridVAE.index3 weights l i 0) as [a0|]; [|discriminate].
    destruct (HybridVAE.index3 weights l i 1) as [a1|]; [|discriminate].
    eauto.
  - intros H.
    assert (Hex : exists bs, traverse
      (fun i => and_then (HybridVAE.index3 weights l i 0) (fun a =>
                and_then (HybridVAE.index3 weights l i 1) (fun b =>
                Some [HybridVAE.RY a i; HybridVAE.RZ b i]))) (seq 0 n_qubits) = Some bs).
    { apply traverse_succeeds_iff. intros i Hi. apply in_seq in Hi.
      destruct (H i) as (a & b & Ha & Hb); [lia|]. rewrite Ha, Hb. simpl. eauto. }
    destruct Hex as [bs Hbs]. rewrite Hbs. simpl. eauto.
Qed.

Lemma encoding_length (enc : list (HybridVAE.Operation T)) :
  HybridVAE.encoding n_qubits inputs = Some enc -> length enc = n_qubits.
Proof.
  intros H. apply traverse_length in H. now rewrite length_seq in H.
Qed.

Lemma layer_length (l : nat) (ops : list (HybridVAE.Operation T)) :
  HybridVAE.layer n_qubits weights l = Some ops -> length ops = 2 * n_qubits + 1.
Proof.
  unfold HybridVAE.layer. intros H.
  destruct (traverse _ (seq 0 n_qubits)) as [rot|] eqn:E; [|discriminate].
  simpl in H. injection H as <-.
  rewrite length_app, (concat_length_const (k := 2)).
  - apply traverse_length in E. rewrite length_seq in E. rewrite E. simpl. lia.
  - eapply traverse_results; [exact E|].
    intros i b _ Hb. cbv beta in Hb.
    destruct (HybridVAE.index3 weights l i 0); [|discriminate].
    destruct (HybridVAE.index3 weights l i 1); [|discriminate].
    simpl in Hb. injection Hb as <-. reflexivity.
Qed.

End QuantumEncoder.

Section QuantumEncoderTape.
Context {T : Type}.
Variables n_qubits n_layers : nat.
Variable inputs : list T.
Variable weights : list (list (list T)).

(** X11: [quantum_encoder] records a tape exactly when [inputs] has at
    least [n_qubits] entries and [weights[l, i, 0]] and [weights[l, i, 1]]
    exist for every layer [l] and qubit [i]; otherwise an index is out of
    range and it raises.  The tape then holds
    [n_qubits + n_layers * (2 * n_qubits + 1)] operations and [n_qubits]
    measurements, and entries of [inputs] past the first [n_qubits] are
    never read. *)
Theorem quantum_encoder_reads_within_bounds :
  ((exists tape, HybridVAE.quantum_encoder n_qubits n_layers inputs weights = Some tape) <->
   n_qubits <= length inputs /\
   (forall l i, l < n_layers -> i < n_qubits ->
      exists a b, HybridVAE.index3 weights l i 0 = Some a /\
                  HybridVAE.index3 weights l i 1 = Some b)) /\
  (forall tape,
     HybridVAE.quantum_encoder n_qubits n_layers inputs weights = Some tape ->
     length (HybridVAE.operations tape) = n_qubits + n_layers * (2 * n_qubits + 1) /\
     length (HybridVAE.measurements tape) = n_qubits /\
     HybridVAE.quantum_encoder n_qubits n_layers (firstn n_qubits inputs) weights =
       Some tape).
Proof.
  unfold HybridVAE.quantum_encoder. split; [split|].
  - intros [tape H].
    destruct (HybridVAE.encoding n_qubits inputs) as [enc|] eqn:Ee; [|discriminate].
    destruct (traverse (HybridVAE.layer n_qubits weights) (seq 0 n_layers))
      as [layers|] eqn:El; [|discriminate].
    split.
    + apply encoding_succeeds_iff. eauto.
    + intros l i Hl Hi.
      assert (Hex : exists ls, traverse (HybridVAE.layer n_qubits weights)
                                        (seq 0 n_layers) = Some ls) by eauto.
      rewrite traverse_succeeds_iff in Hex.
      destruct (Hex l) as [ops Hops]; [apply in_seq; lia|].
      apply (layer_succeeds_iff n_qubits weights l); eauto.
  - intros [Hin Hw].
    apply encoding_succeeds_iff in Hin. destruct Hin as [enc ->].
    assert (Hex : exists ls, traverse (HybridVAE.layer n_qubits weights)
                                      (seq 0 n_layers) = Some ls).
    { apply traverse_succeeds_iff. intros l Hl. apply in_seq in Hl.
      apply layer_succeeds_iff. intros i Hi. apply Hw; lia. }
    destruct Hex as [ls ->]. simpl. eauto.
  - intros tape H.
    destruct (HybridVAE.encoding n_qubits inputs) as [enc|] eqn:Ee; [|discriminate].
    destruct (traverse (HybridVAE.layer n_qubits weights) (seq 0 n_layers))
      as [layers|] eqn:El; [|discriminate].
    simpl in H. injection H as <-. simpl. split; [|split].
    + rewrite length_app, (encoding_length _ _ Ee).
      rewrite (concat_length_const (k := 2 * n_qubits + 1)).
      * apply traverse_length in El. rewrite length_seq in El. now rewrite El.
      * eapply traverse_results; [exact El|].
        intros l ops _ Hops. now apply layer_length in Hops.
    + now rewrite length_map, length_seq.
    + assert (Hfirst : HybridVAE.encoding n_qubits (firstn n_qubits inputs) = Some enc).
      { rewrite <- Ee. unfold HybridVAE.encoding. apply traverse_ext_in.
        intros i Hi. apply in_seq in Hi. rewrite nth_error_firstn.
        destruct (Nat.ltb_spec i n_qubits); [reflexivity | lia]. }
      rewrite Hfirst. reflexivity.
Qed.

Lemma encoding_wires (enc : list (HybridVAE.Operation T)) :
  HybridVAE.encoding n_qubits inputs = Some enc ->
  Forall (fun op => forall w, In w (HybridVAE.wires_of op) -> w < n_qubits) enc.
Proof.
  intros H. eapply traverse_results; [exact H|].
  intros i op Hi Hop. apply in_seq in Hi. cbv beta in Hop.
  destruct (nth_error inputs i); [|discriminate]. simpl in Hop.
  injection Hop as <-. intros w [<-|[]]. lia.
Qed.

Lemma layer_wires (l : nat) (ops : list (HybridVAE.Operation T)) :
  HybridVAE.layer n_qubits weights l = Some ops ->
  exists rotations,
    ops = rotations ++ [HybridVAE.CNOT 0 1] /\
    Forall (fun op => forall w, In w (HybridVAE.wires_of op) -> w < n_qubits) rotations.
Proof.
  unfold HybridVAE.layer. intros H.
  destruct (traverse _ (seq 0 n_qubits)) as [rot|] eqn:E; [|discriminate].
  simpl in H. injection H as <-. exists (concat rot). split; [reflexivity|].
  apply Forall_concat. eapply traverse_results; [exact E|].
  intros i b Hi Hb. apply in_seq in Hi. cbv beta in Hb.
  destruct (HybridVAE.index3 weights l i 0); [|discriminate].
  destruct (HybridVAE.index3 weights l i 1); [|discriminate].
  simpl in Hb. injection Hb as <-.
  repeat constructor; intros w [<-|[]]; lia.
Qed.

(** X12: on a tape [quantum_encoder] records, every measurement is on a
    wire below [n_qubits], and every operation acts on wires below
    [n_qubits] exactly when there is no layer or there are at least two
    qubits: each layer ends with a CNOT on wires 0 and 1 whatever
    [n_qubits] is. *)
Theorem quantum_encoder_wires (tape : HybridVAE.Tape T) :
  HybridVAE.quantum_encoder n_qubits n_layers inputs weights = Some tape ->
  (forall m, In m (HybridVAE.measurements tape) -> HybridVAE.wire_of m < n_qubits) /\
  ((forall op w, In op (HybridVAE.operations tape) ->
                 In w (HybridVAE.wires_of op) -> w < n_qubits) <->
   n_layers = 0 \/ 2 <= n_qubits).
Proof.
  unfold HybridVAE.quantum_encoder. intros H.
  destruct (HybridVAE.encoding n_qubits inputs) as [enc|] eqn:Ee; [|discriminate].
  destruct (traverse (HybridVAE.layer n_qubits weights) (seq 0 n_layers))
    as [layers|] eqn:El; [|discriminate].
  simpl in H. injection H as <-. simpl.
  pose proof (encoding_wires Ee) as Henc. rewrite Forall_forall in Henc.
  split.
  - intros m Hm. apply in_map_iff in Hm. destruct Hm as (i & <- & Hi).
    apply in_seq in Hi. simpl. lia.
  - split.
    + intros Hall. destruct n_layers as [|L]; [now left|]. right.
      change (seq 0 (S L)) with (0 :: seq 1 L) in El. simpl in El.
      destruct (HybridVAE.layer n_qubits weights 0) as [ops|] eqn:E0; [|discriminate].
      simpl in El.
      destruct (traverse (HybridVAE.layer n_qubits weights) (seq 1 L)); [|discriminate].
      simpl in El. injection El as <-.
      destruct (layer_wires _ E0) as (rot & -> & _).
      assert (H1 : 1 < n_qubits); [|lia].
      apply (Hall (HybridVAE.CNOT 0 1)).
      * apply in_or_app. right. simpl. apply in_or_app. left.
        apply in_or_app. right. now left.
      * simpl. auto.
    + intros Hcase op w Hop Hw. apply in_app_or in Hop. destruct Hop as [Hop|Hop].
      * eapply Henc; eassumption.
      * apply in_concat in Hop. destruct Hop as (ops & Hops & Hop).
        apply traverse_Forall2 in El.
        assert (Hlayer : exists l, In l (seq 0 n_layers) /\
                                   HybridVAE.layer n_qubits weights l = Some ops).
        { clear -El Hops. induction El as [|l o ls os Hlo _ IH]; [contradiction|].
          destruct Hops as [<-|Hops]; [exists l; split; [now left | exact Hlo]|].
          destruct (IH Hops) as (l' & Hl' & Hlo'). exists l'. split; [now right | exact Hlo']. }
        destruct Hlayer as (l & Hl & Hlo). apply in_seq in Hl.
        destruct (layer_wires _ Hlo) as (rot & -> & Hrot).
        rewrite Forall_forall in Hrot.
        apply in_app_or in Hop. destruct Hop as [Hop|[<-|[]]].
        -- eapply Hrot; eassumption.
        -- destruct Hcase as [->|Hn]; [lia|].
           simpl in Hw. destruct Hw as [<-|[<-|[]]]; lia.
Qed.

End QuantumEncoderTape.

Section EncoderForward.
Context {T : Type}.
Variables n_qubits n_layers : nat.
Variable simulate : HybridVAE.Tape T -> list T.
Variable to_float32 : list T -> list T.
Variable q_weights : list (list (list T)).

Abbreviation forward := (HybridVAE.forward n_qubits n_layers simulate to_float32 q_weights).
Abbreviation encode_row :=
  (fun row =>
     and_then (HybridVAE.quantum_encoder n_qubits n_layers row q_weights) (fun tape =>
     and_then (HybridVAE.execute n_qubits simulate tape) (fun res =>
     Some (to_float32 res)))).

(** With at least one layer the tape holds the CNOT on wires 0 and 1. *)
Lemma layered_tape_has_cnot (inputs : list T) (tape : HybridVAE.Tape T) :
  n_layers <> 0 ->
  HybridVAE.quantum_encoder n_qubits n_layers inputs q_weights = Some tape ->
  In (HybridVAE.CNOT 0 1) (HybridVAE.operations tape).
Proof.
  intros Hl H. unfold HybridVAE.quantum_encoder in H.
  destruct (HybridVAE.encoding n_qubits inputs) as [enc|]; [|discriminate].
  destruct n_layers as [|L]; [contradiction|].
  change (seq 0 (S L)) with (0 :: seq 1 L) in H. cbn [traverse] in H.
  destruct (HybridVAE.layer n_qubits q_weights 0) as [ops|] eqn:E0; [|discriminate].
  cbn [and_then] in H.
  destruct (traverse (HybridVAE.layer n_qubits q_weights) (seq 1 L)); [|discriminate].
  cbn [and_then] in H. injection H as <-. cbn [HybridVAE.operations].
  destruct (layer_wires _ _ _ E0) as (rot & -> & _).
  apply in_or_app. right. cbn [concat]. apply in_or_app. left.
  apply in_or_app. right. now left.
Qed.

(** The device refuses a tape with that CNOT unless it has two wires. *)
Lemma cnot_needs_two_wires (tape : HybridVAE.Tape T) :
  HybridVAE.on_device n_qubits tape = true ->
  In (HybridVAE.CNOT 0 1) (HybridVAE.operations tape) ->
  2 <= n_qubits.
Proof.
  unfold HybridVAE.on_device. intros H Hin.
  apply andb_true_iff in H. destruct H as [H _].
  rewrite forallb_forall in H. specialize (H _ Hin).
  cbn [HybridVAE.wires_of forallb] in H.
  apply andb_true_iff in H. destruct H as [_ H].
  apply andb_true_iff in H. destruct H as [H _].
  apply Nat.ltb_lt in H. lia.
Qed.

Lemma encode_row_returns (row r : list T) :
  encode_row row = Some r ->
  exists tape,
    HybridVAE.quantum_encoder n_qubits n_layers row q_weights = Some tape /\
    HybridVAE.on_device n_qubits tape = true /\
    r = to_float32 (simulate tape).
Proof.
  cbv beta. intros H.
  destruct (HybridVAE.quantum_encoder n_qubits n_layers row q_weights) as [tape|];
    [|discriminate].
  cbn [and_then] in H. unfold HybridVAE.execute in H.
  destruct (HybridVAE.on_device n_qubits tape) eqn:Ed; [|discriminate].
  cbn [and_then] in H. injection H as <-. eauto.
Qed.

Lemma forward_returns (x out : list (list T)) :
  forward x = Some out -> x <> [] /\ traverse encode_row x = Some out.
Proof.
  intros H. unfold HybridVAE.forward in H.
  destruct (traverse _ x) as [rows|] eqn:E; [|discriminate].
  cbn [and_then] in H. destruct rows as [|r rows]; [discriminate|].
  injection H as <-. split; [|reflexivity].
  intros ->. discriminate.
Qed.

(** X13: [QuantumEncoder.forward] raises on an empty batch, and, when the
    circuit has a layer, on every batch unless the device has two wires:
    the CNOT of a layer is on wires 0 and 1 whatever [n_qubits] is.  When
    it returns, the result has one row per row of the batch, in order, row
    [i] being the converted expectation values of the tape recorded for
    [x[i]] alone, a tape within the wires of the device; and the result on
    two batches put end to end is the two results put end to end. *)
Theorem forward_encodes_each_row :
  forward [] = None /\
  (n_layers <> 0 -> n_qubits < 2 -> forall x, forward x = None) /\
  (forall x out,
     forward x = Some out ->
     x <> [] /\ (n_layers = 0 \/ 2 <= n_qubits) /\ length out = length x /\
     forall i row, nth_error x i = Some row ->
       exists tape,
         HybridVAE.quantum_encoder n_qubits n_layers row q_weights = Some tape /\
         HybridVAE.on_device n_qubits tape = true /\
         nth_error out i = Some (to_float32 (simulate tape))) /\
  (forall x1 x2 out1 out2,
     forward x1 = Some out1 -> forward x2 = Some out2 ->
     forward (x1 ++ x2) = Some (out1 ++ out2)).
Proof.
  assert (Hrows : forall x out, traverse encode_row x = Some out ->
            forall i row, nth_error x i = Some row ->
              exists tape,
                HybridVAE.quantum_encoder n_qubits n_layers row q_weights = Some tape /\
                HybridVAE.on_device n_qubits tape = true /\
                nth_error out i = Some (to_float32 (simulate tape))).
  { intros x out Htr. apply traverse_Forall2 in Htr.
    induction Htr as [|r o x out Hro _ IH]; intros i row Hi.
    - destruct i; discriminate.
    - destruct i as [|i]; cbn [nth_error] in Hi |- *.
      + injection Hi as ->.
        destruct (encode_row_returns _ Hro) as (tape & Ht & Hd & ->). eauto.
      + now apply IH. }
  assert (Hwires : forall x out, forward x = Some out -> n_layers = 0 \/ 2 <= n_qubits).
  { intros x out H. destruct (forward_returns _ H) as [Hne Htr].
    destruct x as [|row x]; [congruence|].
    destruct (Hrows _ _ Htr 0 row eq_refl) as (tape & Ht & Hd & _).
    destruct (Nat.eq_dec n_layers 0) as [E|E]; [now left | right].
    eapply cnot_needs_two_wires; [exact Hd|].
    eapply layered_tape_has_cnot; eassumption. }
  split; [reflexivity|]. split; [|split].
  - intros Hl Hq x. destruct (forward x) as [out|] eqn:E; [|reflexivity].
    destruct (Hwires _ _ E); [contradiction | lia].
  - intros x out H. destruct (forward_returns _ H) as [Hne Htr].
    split; [exact Hne|]. split; [exact (Hwires _ _ H)|].
    split; [now apply traverse_length in Htr|]. now apply Hrows.
  - intros x1 x2 out1 out2 H1 H2.
    destruct (forward_returns _ H1) as [Hne1 Ht1], (forward_returns _ H2) as [_ Ht2].
    unfold HybridVAE.forward. rewrite traverse_app, Ht1, Ht2. cbn [and_then].
    apply traverse_length in Ht1.
    destruct out1 as [|r out1]; [destruct x1; [congruence | discriminate]|].
    reflexivity.
Qed.

End EncoderForward.

(** ** Instances *)

(** A single-qubit Pauli is 2 x 2: conjugating it by CNOT raises. *)
Lemma conjugate_by_cnot_needs_4_by_4_witness :
  (exists r, GroupTheory.conjugate (T := float) GroupTheory.X GroupTheory.CNOT = Some r) <->
  2 = 4 /\ 2 = 4.
Proof.
  apply (@conjugate_by_cnot_needs_4_by_4 float _ 2 2 GroupTheory.X).
  split; [reflexivity | repeat constructor].
Defined.

(** The notebook's settings: two qubits, one layer. *)
Lemma quantum_encoder_wires_witness :
  let tape :=
    {| HybridVAE.operations :=
         [HybridVAE.RY 0.5%float 0; HybridVAE.RY 0.25%float 1;
          HybridVAE.RY 1%float 0; HybridVAE.RZ 2%float 0;
          HybridVAE.RY 3%float 1; HybridVAE.RZ 4%float 1;
          HybridVAE.CNOT 0 1];
       HybridVAE.measurements := [HybridVAE.expval_PauliZ 0; HybridVAE.expval_PauliZ 1] |} in
  (forall m, In m (HybridVAE.measurements tape) -> HybridVAE.wire_of m < 2) /\
  ((forall op w, In op (HybridVAE.operations tape) ->
                 In w (HybridVAE.wires_of op) -> w < 2) <->
   1 = 0 \/ 2 <= 2).
Proof.
  apply (@quantum_encoder_wires float 2 1 [0.5; 0.25]%float
           [[[1; 2]; [3; 4]]]%float).
  reflexivity.
Defined.

(** With one qubit and one layer the tape still ends with the CNOT on
    wires 0 and 1. *)
Example quantum_encoder_one_qubit :
  HybridVAE.quantum_encoder 1 1 [0.5%float] [[[1; 2]]]%float =
  Some {| HybridVAE.operations :=
            [HybridVAE.RY 0.5%float 0; HybridVAE.RY 1%float 0; HybridVAE.RZ 2%float 0;
             HybridVAE.CNOT 0 1];
          HybridVAE.measurements := [HybridVAE.expval_PauliZ 0] |}.
Proof. reflexivity. Qed.

(** With one qubit and one layer the device refuses that tape, and
    [forward] raises on every batch; with the notebook's two qubits it
    returns a row per input. *)
Example forward_with_one_qubit_raises :
  HybridVAE.forward 1 1 (fun _ => [0%float]) (fun res => res) [[[1; 2]]]%float
    [[0.5%float]] = None /\
  HybridVAE.forward 2 1 (fun _ => [0; 1]%float) (fun res => res) [[[1; 2]; [3; 4]]]%float
    [[0.5; 0.25]; [0.75; 1]]%float = Some [[0; 1]; [0; 1]]%float.
Proof. split; reflexivity. Qed.
